(** * pragmash: lexer, syntax lines, conditions and the standard math,
      string and operator builtins, embedded from the Go sources.

    Part I holds the embedding (one definition per Go function, with the
    Go names), Part II the properties proved about it. *)

From Stdlib Require Import ZArith List String Ascii Bool Lia QArith.
From Stdlib Require Import Floats.SpecFloat DecimalString.
Import ListNotations.

Open Scope Z_scope.

(* ================================================================== *)
(** * Part I: the embedding                                            *)
(* ================================================================== *)

(** ** Runes, Go strings and errors *)

(** A Go [rune] is an [int32]; the lexer only ever compares runes and
    converts one [uint64] to a rune. *)
Definition rune := Z.

(** The text of a token and the contents of a [bytes.Buffer] are kept as
    the sequence of runes that [ReadRune] yields from them. *)
Definition gostring := list rune.

Definition rn (c : ascii) : rune := Z.of_nat (nat_of_ascii c).
Arguments rn c%_char.

(** The runes of an ASCII literal. *)
Fixpoint runes (s : string) : gostring :=
  match s with
  | EmptyString => []
  | String c s' => rn c :: runes s'
  end.
Arguments runes s%_string.

(** The double quote, which a literal cannot hold. *)
Definition dquote : rune := 34.

(** [strconv.NumError.Err]. *)
Inductive numerr := ErrSyntax | ErrRange.

(** Go errors. The package-level [Err...] variables are compared by
    identity in the source, so each is a constructor of its own;
    [errors_New] stands for a fresh [errors.New(msg)], [io_EOF] for
    [io.EOF] and [strconv_NumError] for what [strconv.ParseUint] returns. *)
Inductive error :=
| io_EOF
| ErrEOFAfterLineContinuation
| ErrMissingOpenCurlyBrace
| ErrUnexpectedCloseParen
| ErrEscapeCodeUnderflow
| ErrMissingEndQuote
| ErrMissingCloseParen
| ErrEmptyParens
| ErrMissingWhitespace
| strconv_NumError (num : gostring) (err : numerr)
| errors_New (msg : gostring).

(** Modelled from the spec: [ErrMissingCloseParen], [ErrEmptyParens] and
    [ErrMissingWhitespace] are used by syntax.go but their declarations
    are not in the sources at hand; the spec names them the missing close
    paren, empty parens and missing mandatory whitespace errors. *)
Definition modelled_errors : list error :=
  [ErrMissingCloseParen; ErrEmptyParens; ErrMissingWhitespace].

(** What a call can do: return a value, return an error, panic, or (for
    the fuelled loops below) exhaust its fuel. *)
Inductive outcome (A : Type) :=
| Ok (a : A)
| Err (e : error)
| Panic (msg : string)
| OutOfFuel.
Arguments Ok {A} a.
Arguments Err {A} e.
Arguments Panic {A} msg.
Arguments OutOfFuel {A}.

(** ** Tokens and syntax lines (syntax.go) *)

Definition BlockInitiatingKeywords : list gostring :=
  [runes "if"; runes "else"; runes "while"; runes "try"; runes "for";
   runes "def"].

(** [Command] is [None] for Go's nil slice. *)
#[warnings="-register-all"]
Inductive Token :=
| mkToken (Command : option (list Token)) (Text : gostring) (Bare : bool).

Definition Command (t : Token) : option (list Token) :=
  match t with mkToken c _ _ => c end.
Definition Text (t : Token) : gostring :=
  match t with mkToken _ s _ => s end.
Definition Bare (t : Token) : bool :=
  match t with mkToken _ _ b => b end.

(** The field [Number] is written [Number_]: [Number] is the numeric
    type of the builtins below. *)
Record SyntaxLine := mkSyntaxLine {
  BlockOpen : bool;
  BlockClose : bool;
  Tokens : list Token;
  Number_ : Z
}.

(** A [*bytes.Buffer] holding the unread rest of the line. *)
Definition buffer := list rune.

(** A call that reads from the buffer: its outcome and the buffer it
    leaves, which the caller keeps using even after an error
    ([readNestedCommand] goes on after [ErrUnexpectedCloseParen]). *)
Definition reader (A : Type) := buffer -> outcome A * buffer.

Definition gostring_eqb (a b : gostring) : bool :=
  if list_eq_dec Z.eq_dec a b then true else false.

(** [utf8.RuneError]. *)
Definition RuneError : rune := 65533.

Definition utf8_ValidRune (r : rune) : bool :=
  ((0 <=? r) && (r <? 55296)) || ((57343 <? r) && (r <=? 1114111)).

(** [str.WriteRune(r)]: a rune that is no code point is written as
    [utf8.RuneError]. *)
Definition WriteRune (str : gostring) (r : rune) : gostring :=
  str ++ [if utf8_ValidRune r then r else RuneError].

(** [rune(res)] for [res : uint64]: the low 32 bits, read as signed. *)
Definition rune_of_uint64 (res : Z) : rune :=
  let w := res mod 4294967296 in
  if w <? 2147483648 then w else w - 4294967296.

(** *** strconv.ParseUint, for an explicit base between 2 and 36 *)

Definition lower (c : rune) : rune := Z.lor c 32.

Definition digit_value (c : rune) : option Z :=
  if (rn "0" <=? c) && (c <=? rn "9") then Some (c - rn "0")
  else if (rn "a" <=? lower c) && (lower c <=? rn "z")
       then Some (lower c - rn "a" + 10)
  else None.

Definition maxUint64 : Z := 18446744073709551615.

Fixpoint ParseUint_loop (s0 s : gostring) (base maxVal n : Z) : outcome Z :=
  match s with
  | [] => Ok n
  | c :: s' =>
      match digit_value c with
      | None => Err (strconv_NumError s0 ErrSyntax)
      | Some d =>
          if base <=? d then Err (strconv_NumError s0 ErrSyntax)
          else if maxUint64 / base + 1 <=? n
               then Err (strconv_NumError s0 ErrRange)
          else let n1 := n * base + d in
               if (maxUint64 <? n1) || (maxVal <? n1)
               then Err (strconv_NumError s0 ErrRange)
               else ParseUint_loop s0 s' base maxVal n1
      end
  end.

Definition ParseUint (s : gostring) (base bitSize : Z) : outcome Z :=
  match s with
  | [] => Err (strconv_NumError s ErrSyntax)
  | _ => ParseUint_loop s s base (2 ^ bitSize - 1) 0
  end.

Section Lexer.

(** [unicode.IsSpace] and [unicode.IsDigit] belong to Go's library, and
    their tables change with the Unicode version: the lexer takes them as
    parameters. [Unicode.IsSpace] and [Unicode.IsDigit] below are the
    instances used to run it. *)
Variable unicode_IsSpace : rune -> bool.
Variable unicode_IsDigit : rune -> bool.

Fixpoint readSpace_loop (b : buffer) (gotSpace : bool) : bool * buffer :=
  match b with
  | [] => (gotSpace, [])
  | r :: b' =>
      if unicode_IsSpace r then readSpace_loop b' true
      else (gotSpace, r :: b')
  end.

Definition readSpace : reader bool := fun b =>
  match b with
  | [] => (Ok true, [])
  | _ => let (gotSpace, b') := readSpace_loop b false in (Ok gotSpace, b')
  end.

Fixpoint readOctalEscape_loop (i : nat) (rs : gostring) (b : buffer)
  : gostring * buffer :=
  match i with
  | O => (rs, b)
  | S i' =>
      match b with
      | [] => (rs, [])
      | r :: b' =>
          if (rn "0" <=? r) && (r <? rn "8")
          then readOctalEscape_loop i' (rs ++ [r]) b'
          else (rs, r :: b')
      end
  end.

Definition readOctalEscape : reader rune := fun b =>
  let (rs, b') := readOctalEscape_loop 3 [] b in
  match rs with
  | [] => (Err ErrEscapeCodeUnderflow, b')
  | _ =>
      match ParseUint rs 8 8 with
      | Ok res => (Ok (rune_of_uint64 res), b')
      | Err e => (Err e, b')
      | Panic m => (Panic m, b')
      | OutOfFuel => (OutOfFuel, b')
      end
  end.

Fixpoint readNumericEscape_loop (i : nat) (rs : gostring) (b : buffer)
  : outcome gostring * buffer :=
  match i with
  | O => (Ok rs, b)
  | S i' =>
      match b with
      | [] => (Err ErrEscapeCodeUnderflow, [])
      | r :: b' => readNumericEscape_loop i' (rs ++ [r]) b'
      end
  end.

Definition readNumericEscape (charCount : nat) : reader rune := fun b =>
  match readNumericEscape_loop charCount [] b with
  | (Ok rs, b') =>
      match ParseUint rs 16 (Z.of_nat charCount * 4) with
      | Ok res => (Ok (rune_of_uint64 res), b')
      | Err e => (Err e, b')
      | Panic m => (Panic m, b')
      | OutOfFuel => (OutOfFuel, b')
      end
  | (Err e, b') => (Err e, b')
  | (Panic m, b') => (Panic m, b')
  | (OutOfFuel, b') => (OutOfFuel, b')
  end.

(** [string(firstRune)]. *)
Definition string_of_rune (r : rune) : gostring := WriteRune [] r.

Definition passthrough : list rune :=
  [rn "("; rn ")"; rn "?"; rn "'"; dquote; rn " "; rn "\"].

Definition readEscapeSequence : reader rune := fun b =>
  match b with
  | [] => (Err ErrEscapeCodeUnderflow, [])
  | firstRune :: b' =>
      if existsb (Z.eqb firstRune) passthrough then (Ok firstRune, b')
      else if firstRune =? rn "a" then (Ok 7, b')
      else if firstRune =? rn "b" then (Ok 8, b')
      else if firstRune =? rn "f" then (Ok 12, b')
      else if firstRune =? rn "n" then (Ok 10, b')
      else if firstRune =? rn "r" then (Ok 13, b')
      else if firstRune =? rn "t" then (Ok 9, b')
      else if firstRune =? rn "v" then (Ok 11, b')
      else if firstRune =? rn "x" then readNumericEscape 2 b'
      else if firstRune =? rn "u" then readNumericEscape 4 b'
      else if firstRune =? rn "U" then readNumericEscape 8 b'
      else if negb (unicode_IsDigit firstRune) || (firstRune =? rn "8")
              || (firstRune =? rn "9")
      then (Err (errors_New (runes "invalid escape character: "
                               ++ string_of_rune firstRune)), b')
      else readOctalEscape (firstRune :: b')
  end.

(** Lifting an outcome that is not [Ok] to another result type. *)
Definition fail_as {A : Type} (B : Type) (o : outcome A) : outcome B :=
  match o with
  | Ok _ => OutOfFuel
  | Err e => Err e
  | Panic m => Panic m
  | OutOfFuel => OutOfFuel
  end.

(** The loop of [readQuotedString]; every round reads at least one rune,
    and [fuel] bounds the rounds. *)
Fixpoint readQuotedString_loop (fuel : nat) (quote : rune) (str : gostring)
  (b : buffer) : outcome gostring * buffer :=
  match fuel with
  | O => (OutOfFuel, b)
  | S fuel' =>
      match b with
      | [] => (Err ErrMissingEndQuote, [])
      | r :: b' =>
          if r =? quote then (Ok str, b')
          else if r =? rn "\" then
            match readEscapeSequence b' with
            | (Ok seq, b'') =>
                readQuotedString_loop fuel' quote (WriteRune str seq) b''
            | (o, b'') => (fail_as gostring o, b'')
            end
          else readQuotedString_loop fuel' quote (WriteRune str r) b'
      end
  end.

Definition readQuotedString (fuel : nat) (quote : rune) : reader gostring :=
  readQuotedString_loop fuel quote [].

(** The loop of [readBareString], with the local variables [str] and
    [bare] as arguments. [escapes] is a ghost counter, absent from the Go
    code: the number of calls of [readEscapeSequence] made so far. *)
Fixpoint readBareString_loop (fuel : nat) (str : gostring) (bare : bool)
  (escapes : nat) (b : buffer) : outcome (Token * nat) * buffer :=
  match fuel with
  | O => (OutOfFuel, b)
  | S fuel' =>
      match b with
      | [] => (Ok (mkToken None str bare, escapes), [])
      | r :: b' =>
          if unicode_IsSpace r || (r =? rn ")")
          then (Ok (mkToken None str bare, escapes), r :: b')
          else if r =? rn "\" then
            match readEscapeSequence b' with
            | (Ok seq, b'') =>
                readBareString_loop fuel' (WriteRune str seq) false
                  (S escapes) b''
            | (o, b'') => (fail_as (Token * nat) o, b'')
            end
          else readBareString_loop fuel' (WriteRune str r) bare escapes b'
      end
  end.

(** [readBareString] together with the ghost count of decoder calls. *)
Definition readBareString_counted (fuel : nat) : reader (Token * nat) :=
  readBareString_loop fuel [] true O.

Definition readBareString (fuel : nat) : reader Token := fun b =>
  match readBareString_counted fuel b with
  | (Ok (t, _), b') => (Ok t, b')
  | (o, b') => (fail_as Token o, b')
  end.

(** The end of [readNestedCommand], after its loop. *)
Definition readNestedCommand_finish (tokens : list Token) (b : buffer)
  : outcome (list Token) * buffer :=
  match tokens with
  | [] => (Err ErrEmptyParens, b)
  | _ => (Ok tokens, b)
  end.

(** [readNextToken] and the loop of [readNestedCommand] call each other;
    both go down on [fuel]. *)
Fixpoint readNextToken (fuel : nat) (b : buffer) {struct fuel}
  : outcome Token * buffer :=
  match fuel with
  | O => (OutOfFuel, b)
  | S fuel' =>
      match b with
      | [] => (Err io_EOF, [])
      | firstRune :: b' =>
          if firstRune =? dquote then
            match readQuotedString fuel' dquote b' with
            | (Ok str, b'') => (Ok (mkToken None str false), b'')
            | (o, b'') => (fail_as Token o, b'')
            end
          else if firstRune =? rn "'" then
            match readQuotedString fuel' (rn "'") b' with
            | (Ok str, b'') => (Ok (mkToken None str false), b'')
            | (o, b'') => (fail_as Token o, b'')
            end
          else if firstRune =? rn "(" then
            match readNestedCommand_loop fuel' []
                    (snd (readSpace b')) with
            | (Ok tokens, b'') => (Ok (mkToken (Some tokens) [] false), b'')
            | (o, b'') => (fail_as Token o, b'')
            end
          else if firstRune =? rn ")" then (Err ErrUnexpectedCloseParen, b')
          else readBareString fuel' (firstRune :: b')
      end
  end
with readNestedCommand_loop (fuel : nat) (tokens : list Token) (b : buffer)
  {struct fuel} : outcome (list Token) * buffer :=
  match fuel with
  | O => (OutOfFuel, b)
  | S fuel' =>
      match readNextToken fuel' b with
      | (Err ErrUnexpectedCloseParen, b') =>
          readNestedCommand_finish tokens b'
      | (Err io_EOF, b') => (Err ErrMissingCloseParen, b')
      | (Ok token, b') =>
          let tokens' := tokens ++ [token] in
          match b' with
          | r :: b'' =>
              if r =? rn ")" then readNestedCommand_finish tokens' b''
              else
                match readSpace b' with
                | (Ok true, b3) => readNestedCommand_loop fuel' tokens' b3
                | (Ok false, b3) => (Err ErrMissingWhitespace, b3)
                | (o, b3) => (fail_as (list Token) o, b3)
                end
          | [] =>
              match readSpace b' with
              | (Ok true, b3) => readNestedCommand_loop fuel' tokens' b3
              | (Ok false, b3) => (Err ErrMissingWhitespace, b3)
              | (o, b3) => (fail_as (list Token) o, b3)
              end
          end
      | (o, b') => (fail_as (list Token) o, b')
      end
  end.

Definition readNestedCommand (fuel : nat) : reader (list Token) := fun b =>
  readNestedCommand_loop fuel [] (snd (readSpace b)).

Definition isOpenKeyword (tokens : list Token) : bool :=
  match tokens with
  | t0 :: _ =>
      Bare t0 && existsb (gostring_eqb (Text t0)) BlockInitiatingKeywords
  | [] => false
  end.

Definition processCurlyBraces (l : SyntaxLine) : outcome SyntaxLine :=
  match Tokens l with
  | [] => Panic "there should always be tokens here"
  | t0 :: rest =>
      let l1 :=
        if gostring_eqb (Text t0) (runes "}") && Bare t0
        then mkSyntaxLine (BlockOpen l) true rest (Number_ l)
        else l in
      if isOpenKeyword (Tokens l1) then
        if negb (gostring_eqb (Text (last (Tokens l1) t0)) (runes "{"))
        then Err ErrMissingOpenCurlyBrace
        else Ok (mkSyntaxLine true (BlockClose l1)
                   (removelast (Tokens l1)) (Number_ l1))
      else Ok l1
  end.

(** The loop of [parseLine]; [tokens] is [line.Tokens]. *)
Fixpoint parseLine_loop (fuel : nat) (tokens : list Token) (b : buffer)
  : outcome (list Token) :=
  match fuel with
  | O => OutOfFuel
  | S fuel' =>
      match b with
      | [] => Ok tokens
      | _ =>
          match readNextToken fuel' b with
          | (Ok token, b') =>
              match readSpace b' with
              | (Ok true, b'') =>
                  parseLine_loop fuel' (tokens ++ [token]) b''
              | (Ok false, _) => Err ErrMissingWhitespace
              | (o, _) => fail_as (list Token) o
              end
          | (o, _) => fail_as (list Token) o
          end
      end
  end.

(** Fuel that the loops cannot exhaust on a buffer [b] (see
    [parseLine_terminates]). *)
Definition fuel_for (b : buffer) : nat := 2 * List.length b + 4.

Definition parseLine (text : gostring) (num : Z) : outcome SyntaxLine :=
  match parseLine_loop (fuel_for text) [] text with
  | Ok tokens => processCurlyBraces (mkSyntaxLine false false tokens num)
  | o => fail_as SyntaxLine o
  end.

End Lexer.

(** ** Instances of Go's Unicode tables *)

Module Unicode.

Definition MaxLatin1 : rune := 255.

Definition in_ranges (t : list (Z * Z)) (r : rune) : bool :=
  existsb (fun lh => (fst lh <=? r) && (r <=? snd lh)) t.

(** The code points above Latin-1 with the White_Space property, as in
    the table [unicode.White_Space] of Go. *)
Definition White_Space : list (Z * Z) :=
  [(5760, 5760); (8192, 8202); (8232, 8233); (8239, 8239); (8287, 8287);
   (12288, 12288)].

(** Decimal digits (category Nd) above Latin-1: the ranges of the table
    [unicode.Digit] of Go 1.21 (Unicode 15), from U+0660 to U+1FBF9. *)
Definition Nd : list (Z * Z) :=
  [(1632, 1641); (1776, 1785); (1984, 1993); (2406, 2415); (2534, 2543);
   (2662, 2671); (2790, 2799); (2918, 2927); (3046, 3055); (3174, 3183);
   (3302, 3311); (3430, 3439); (3558, 3567); (3664, 3673); (3792, 3801);
   (3872, 3881); (4160, 4169); (4240, 4249); (6112, 6121); (6160, 6169);
   (6470, 6479); (6608, 6617); (6784, 6793); (6800, 6809); (6992, 7001);
   (7088, 7097); (7232, 7241); (7248, 7257); (42528, 42537);
   (43216, 43225); (43264, 43273); (43472, 43481); (43504, 43513);
   (43600, 43609); (44016, 44025); (65296, 65305); (66720, 66729);
   (68912, 68921); (69734, 69743); (69872, 69881); (69942, 69951);
   (70096, 70105); (70384, 70393); (70736, 70745); (70864, 70873);
   (71248, 71257); (71360, 71369); (71472, 71481); (71904, 71913);
   (72016, 72025); (72784, 72793); (73040, 73049); (73120, 73129);
   (73552, 73561); (92768, 92777); (92864, 92873); (93008, 93017);
   (120782, 120831); (123200, 123209); (123632, 123641); (124144, 124153);
   (125264, 125273); (130032, 130041)].

(** [unicode.IsSpace]: Latin-1 is decided by a switch, the rest by the
    table. *)
Definition IsSpace (r : rune) : bool :=
  if (0 <=? r) && (r <=? MaxLatin1) then
    existsb (Z.eqb r) [9; 10; 11; 12; 13; 32; 133; 160]
  else in_ranges White_Space r.

(** [unicode.IsDigit]. *)
Definition IsDigit (r : rune) : bool :=
  if (0 <=? r) && (r <=? MaxLatin1) then (rn "0" <=? r) && (r <=? rn "9")
  else in_ranges Nd r.

End Unicode.

(** The lexer run with these tables. *)
Definition lexToken (text : gostring) : outcome Token * buffer :=
  readNextToken Unicode.IsSpace Unicode.IsDigit (fuel_for text) text.

Definition lexLine (text : gostring) : outcome SyntaxLine :=
  parseLine Unicode.IsSpace Unicode.IsDigit text 1.

Definition decodeEscape (text : gostring) : outcome rune * buffer :=
  readEscapeSequence Unicode.IsDigit text.

(** ** Numbers *)

(** A [float64] is an IEEE 754 binary64 value; the operations are those
    of [SpecFloat] at precision 53 and maximal exponent 1024. *)
Definition float64 := spec_float.

Definition f64_add : float64 -> float64 -> float64 := SFadd 53 1024.
Definition f64_sub : float64 -> float64 -> float64 := SFsub 53 1024.
Definition f64_mul : float64 -> float64 -> float64 := SFmul 53 1024.
Definition f64_div : float64 -> float64 -> float64 := SFdiv 53 1024.
Definition f64_ltb : float64 -> float64 -> bool := SFltb.

(** The float nearest to [m * 2^e]; [float64(z)] for an integer. *)
Definition f64 (m e : Z) : float64 := binary_normalize 53 1024 m e false.
Definition float64_of_Z (z : Z) : float64 := f64 z 0.

Definition math_IsNaN (f : float64) : bool :=
  match f with S754_nan => true | _ => false end.

(** [math.IsInf(f, 0)]. *)
Definition math_IsInf (f : float64) : bool :=
  match f with S754_infinity _ => true | _ => false end.

(** [math.Modf] on a positive finite float [m * 2^e]: the integer part and
    whether a fraction is left. *)
Definition math_Modf (m : positive) (e : Z) : Z * bool :=
  if 0 <=? e then (Zpos m * 2 ^ e, false)
  else let d := Z.shiftr (Zpos m) (- e) in
       (d, negb (Z.shiftl d (- e) =? Zpos m)).

(** [math.Floor]: zero, NaN and the infinities are returned as they are;
    a negative [x] is rounded through [Modf(-x)]. *)
Definition math_Floor (x : float64) : float64 :=
  match x with
  | S754_finite s m e =>
      if 0 <=? e then x
      else
        let (d, fract) := math_Modf m e in
        if s then SFopp (float64_of_Z (if fract then d + 1 else d))
        else float64_of_Z d
  | _ => x
  end.

(** [math.Ceil(x)] is [-Floor(-x)]. *)
Definition math_Ceil (x : float64) : float64 := SFopp (math_Floor (SFopp x)).

(** [int(f)]: truncation toward zero; what Go leaves to the
    implementation (NaN, infinities, values outside [int64]) is the
    smallest [int64], as on amd64. *)
Definition minInt64 : Z := - 2 ^ 63.

Definition int_of_float64 (f : float64) : Z :=
  match f with
  | S754_zero _ => 0
  | S754_finite s m e =>
      let a := fst (math_Modf m e) in
      let v := if s then - a else a in
      if (minInt64 <=? v) && (v <? 2 ^ 63) then v else minInt64
  | _ => minInt64
  end.

(** A [*big.Rat], always in lowest terms. [z.SetFloat64(f)] sets [z] to
    the exact value of a finite [f]; for a NaN or an infinity it returns
    nil and leaves [z] as it was. The callers drop the returned pointer
    and read [z]. *)
Definition big_Rat := Q.

Definition big_NewRat (a b : Z) : big_Rat := Qred (Qmake a (Z.to_pos b)).

Definition Rat_SetFloat64 (z : big_Rat) (f : float64) : big_Rat :=
  match f with
  | S754_zero _ => 0 # 1
  | S754_finite s m e =>
      let n := if s then Zneg m else Zpos m in
      if 0 <=? e then Qmake (n * 2 ^ e) 1
      else Qred (Qmake n (Z.to_pos (2 ^ (- e))))
  | _ => z
  end.

Definition Rat_Num (z : big_Rat) : Z := Qnum z.

(** Modelled from the spec: number.go is not in the sources at hand. The
    spec gives a Number as a tagged value holding exactly one of an
    arbitrary-precision integer, a reduced rational that is no integer,
    or a double-precision float. *)
Inductive Number :=
| NumInt (i : Z)
| NumRat (q : Q)
| NumFloat (f : float64).

(** Modelled from the spec: the factories from a native integer, a
    native float and an arbitrary-precision integer. *)
Definition NewNumberInt (i : Z) : Number := NumInt i.
Definition NewNumberBig (i : Z) : Number := NumInt i.
Definition NewNumberFloat (f : float64) : Number := NumFloat f.

(** Modelled from the spec: a rational result is reduced, and becomes the
    integer variant when its denominator is 1. *)
Definition normalize (q : Q) : Number :=
  let q' := Qred q in
  if (Qden q' =? 1)%positive then NumInt (Qnum q') else NumRat q'.

(** Modelled from the spec: [n.Int()] is the exact integer value when the
    number is integral and nil otherwise. A rational in canonical form is
    never integral and an inexact number has no exact value. *)
Definition Number_Int (n : Number) : option Z :=
  match n with
  | NumInt i => Some i
  | _ => None
  end.

(** Modelled from the spec: [n.Float()] always returns an approximation. *)
Definition Number_Float (n : Number) : float64 :=
  match n with
  | NumInt i => float64_of_Z i
  | NumRat q => f64_div (float64_of_Z (Qnum q)) (float64_of_Z (Zpos (Qden q)))
  | NumFloat f => f
  end.

Definition is_exact (n : Number) : bool :=
  match n with NumFloat _ => false | _ => true end.

Definition exact_value (n : Number) : Q :=
  match n with
  | NumInt i => inject_Z i
  | NumRat q => q
  | NumFloat _ => 0
  end.

(** Modelled from the spec: comparison returns less, equal or greater (as
    -1, 0, 1); two exact numbers are compared as rationals, and floats are
    compared as soon as one operand is inexact. *)
Definition CompareNumbers (a b : Number) : Z :=
  if is_exact a && is_exact b then
    match Qcompare (exact_value a) (exact_value b) with
    | Lt => -1
    | Eq => 0
    | Gt => 1
    end
  else
    let f1 := Number_Float a in
    let f2 := Number_Float b in
    if f64_ltb f1 f2 then -1 else if f64_ltb f2 f1 then 1 else 0.

(** Modelled from the spec: integer times integer is an integer; an
    inexact operand makes the product inexact, computed on floats; a
    rational operand gives a rational, reduced to the integer form when
    the denominator becomes 1. *)
Definition MultiplyNumbers (a b : Number) : Number :=
  match a, b with
  | NumInt x, NumInt y => NumInt (x * y)
  | _, _ =>
      if is_exact a && is_exact b
      then normalize (Qmult (exact_value a) (exact_value b))
      else NumFloat (f64_mul (Number_Float a) (Number_Float b))
  end.

(** ** std_math.go *)

(** [z.Mod(x, y)] of math/big: the remainder of the truncated division,
    moved into [0, |y|); a zero [y] is a run-time panic. *)
Definition big_Int_Mod (x y : Z) : outcome Z :=
  if y =? 0 then Panic "division by zero"
  else
    let r := Z.rem x y in
    Ok (if r <? 0 then (if y <? 0 then r - y else r + y) else r).

Definition Abs (num : Number) : Number :=
  if CompareNumbers num (NewNumberInt 0) =? -1
  then MultiplyNumbers (NewNumberInt (-1)) num
  else num.

Definition Ceil (f : float64) : Number :=
  let rounded := math_Ceil f in
  let rat := Rat_SetFloat64 (big_NewRat 0 1) rounded in
  NewNumberBig (Rat_Num rat).

Definition Floor (f : float64) : Number :=
  let rounded := math_Floor f in
  let rat := Rat_SetFloat64 (big_NewRat 0 1) rounded in
  NewNumberBig (Rat_Num rat).

Definition Round (f : float64) : Number :=
  let rounded := math_Floor (f64_add f (f64 1 (-1))) in
  let rat := Rat_SetFloat64 (big_NewRat 0 1) rounded in
  NewNumberBig (Rat_Num rat).

Definition Mod (num modulus : Number) : outcome Number :=
  match Number_Int num, Number_Int modulus with
  | Some i1, Some i2 =>
      match big_Int_Mod i1 i2 with
      | Ok resNum => Ok (NewNumberBig resNum)
      | o => fail_as Number o
      end
  | _, _ =>
      let f1 := Number_Float num in
      let f2 := Number_Float modulus in
      let quot := math_Floor (f64_div f1 f2) in
      let res := f64_sub f1 (f64_mul quot f2) in
      Ok (NewNumberFloat res)
  end.

(** The loop [for i := 2; i < bound; i++ { res.Mul(res, i) }]. *)
Fixpoint Factorial_loop (fuel : nat) (bound i res : Z) : Z :=
  match fuel with
  | O => res
  | S fuel' =>
      if i <? bound then Factorial_loop fuel' bound (i + 1) (res * i)
      else res
  end.

Section Factorial.

(** [math.Gamma] belongs to Go's library. *)
Variable math_Gamma : float64 -> float64.

Definition Factorial (n : Number) : outcome Number :=
  let i := Number_Int n in
  if match i with None => true | Some _ => false end
     || (CompareNumbers n (NewNumberInt 0) <? 0)
  then
    let ans := math_Gamma (Number_Float n) in
    if math_IsNaN ans || math_IsInf ans
    then Err (errors_New (runes "cannot compute gamma result"))
    else Ok (NewNumberFloat ans)
  else if CompareNumbers n (NewNumberInt 65536) >=? 0
  then Err (errors_New (runes "argument too big"))
  else
    let bound := int_of_float64 (Number_Float n) in
    Ok (NewNumberBig (Factorial_loop (Z.to_nat bound) bound 2 1)).

End Factorial.

(** ** Values *)

(** Modelled from the spec: value.go is not in the sources at hand. A
    Value is a string; a boolean is the empty string when false and a
    fixed non-empty literal when true. *)
Record Value := StringValue { Value_String : string }.

Definition BoolValue (b : bool) : Value :=
  StringValue (if b then "true" else "")%string.

Definition NewValueBool (b : bool) : Value := BoolValue b.

Definition emptyValue : Value := StringValue "".

Definition Value_Bool (v : Value) : bool :=
  negb (String.eqb (Value_String v) "").

(** ** std_ops.go *)

(** [strconv.Itoa]. *)
Definition strconv_Itoa (i : Z) : string :=
  NilZero.string_of_int (Z.to_int i).

(** [strings[index]]: an index outside the slice is a run-time panic. *)
Definition index_strings (strings : list string) (index : Z)
  : outcome string :=
  if (index <? 0) || (Z.of_nat (List.length strings) <=? index)
  then Panic "index out of range"
  else
    match nth_error strings (Z.to_nat index) with
    | Some s => Ok s
    | None => Panic "index out of range"
    end.

Definition Subscript (strings : list string) (index : Z) : outcome Value :=
  if (index <? 0) || (index >=? Z.of_nat (List.length strings))
  then Err (errors_New (runes "subscript out of bounds: "
                          ++ runes (strconv_Itoa index)))
  else
    match index_strings strings index with
    | Ok s => Ok (StringValue s)
    | o => fail_as Value o
    end.

(** ** std_string.go *)

(** [len(s)], in bytes. *)
Definition len (s : string) : Z := Z.of_nat (String.length s).

(** [s[lo:hi]]: bounds outside [0 <= lo <= hi <= len(s)] are a run-time
    panic. *)
Definition slice (s : string) (lo hi : Z) : outcome string :=
  if (0 <=? lo) && (lo <=? hi) && (hi <=? len s)
  then Ok (substring (Z.to_nat lo) (Z.to_nat (hi - lo)) s)
  else Panic "slice bounds out of range".

(** The two sanitizing steps of [Substr]. *)
Definition clamp_start (s : string) (start : Z) : Z :=
  if start <? 0 then 0 else if len s <? start then len s else start.

Definition clamp_end (s : string) (start end_ : Z) : Z :=
  if end_ <? start then start else if len s <? end_ then len s else end_.

Definition Substr (s : string) (start : Z) (e : list Z) : outcome string :=
  if len s =? 0 then Ok ""%string
  else if 1 <? Z.of_nat (List.length e)
  then Err (errors_New (runes "expected 2 or 3 arguments"))
  else
    let end_ := if Z.of_nat (List.length e) =? 1 then nth 0 e 0 else len s in
    let start := clamp_start s start in
    let end_ := clamp_end s start end_ in
    slice s start end_.

(** ** condition.go *)

Section Condition.

(** The runner and the breakout (error or control flow) of the executor
    are not interpreted here. *)
Variables Runner Breakout : Type.

(** A [Runnable]: [Run(r)] returns a value or a breakout. *)
Definition Runnable := Runner -> Value + Breakout.

(** The loop [for i := 1; i < len(c); i++] of [Condition.Run]. *)
Fixpoint Condition_loop (c : list Runnable) (r : Runner) (str : string)
  : Value + Breakout :=
  match c with
  | [] => inl (NewValueBool true)
  | ci :: c' =>
      match ci r with
      | inr bo => inr bo
      | inl val =>
          if negb (String.eqb (Value_String val) str) then inl emptyValue
          else Condition_loop c' r str
      end
  end.

Definition Condition_Run (c : list Runnable) (r : Runner)
  : Value + Breakout :=
  match c with
  | [] => inl (NewValueBool true)
  | [c0] => c0 r
  | c0 :: rest =>
      match c0 r with
      | inr bo => inr bo
      | inl first => Condition_loop rest r (Value_String first)
      end
  end.

Definition NotCondition_Run (n : list Runnable) (r : Runner)
  : Value + Breakout :=
  match Condition_Run n r with
  | inr bo => inr bo
  | inl val => inl (NewValueBool (negb (Value_Bool val)))
  end.

(** An operand already reduced to a string. *)
Definition operand (s : string) : Runnable := fun _ => inl (StringValue s).

End Condition.

Arguments operand {Runner Breakout} s.
Arguments Condition_loop {Runner Breakout} c r str.
Arguments Condition_Run {Runner Breakout} c r.
Arguments NotCondition_Run {Runner Breakout} n r.

(** ** syntax.go: ReadSyntaxLine *)

Section SyntaxParser.

Variable unicode_IsSpace : rune -> bool.
Variable unicode_IsDigit : rune -> bool.

(** The error with which the reader ends. *)
Variable reader_error : error.

(** A [LogicalLineReader] is the list of the logical lines, each with its
    physical line number, that [ReadLine] still has to hand out; once the
    list is empty [ReadLine] returns the reader's error. [len(line) == 0]
    is the empty list and [line[0] == '#'] looks at the first rune, since
    the number sign is one byte. *)
Fixpoint ReadSyntaxLine (rd : list (gostring * Z))
  : outcome SyntaxLine * list (gostring * Z) :=
  match rd with
  | [] => (Err reader_error, [])
  | (line, num) :: rd' =>
      match line with
      | [] => ReadSyntaxLine rd'
      | c :: _ =>
          if c =? rn "#" then ReadSyntaxLine rd'
          else (parseLine unicode_IsSpace unicode_IsDigit line num, rd')
      end
  end.

End SyntaxParser.

(** ** std_math.go: Mul and Sqrt *)

Definition f64_sqrt : float64 -> float64 := SFsqrt 53 1024.

Definition Mul (nums : list Number) : Number :=
  fold_left MultiplyNumbers nums (NewNumberInt 1).

Definition Sqrt (f : float64) : outcome float64 :=
  if f64_ltb f (S754_zero false)
  then Err (errors_New (runes "cannot represent imaginary numbers"))
  else Ok (f64_sqrt f).

(** ** std_string.go: Chr, Ord, Escape, Unescape, PadZero *)

(** [byte(x)] for an [int]: the low eight bits. *)
Definition byte_of_int (x : Z) : ascii := ascii_of_nat (Z.to_nat (x mod 256)).

Definition int_of_byte (c : ascii) : Z := Z.of_nat (nat_of_ascii c).

Definition Chr (list : list Z) : string :=
  string_of_list_ascii (map byte_of_int list).

Definition Ord (str : string) : list Z :=
  map int_of_byte (list_ascii_of_string str).

(** [strings.Replace(s, old, new, -1)] for a non-empty [old]: the
    occurrences of [old] are replaced from the left, without overlap.
    [skip] counts the bytes of a matched [old] that are still to be
    passed over. *)
Fixpoint Replace_from (old new : string) (skip : nat) (s : string) : string :=
  match s with
  | EmptyString => EmptyString
  | String c s' =>
      match skip with
      | S k => Replace_from old new k s'
      | O =>
          if String.prefix old s
          then (new ++ Replace_from old new (String.length old - 1) s')%string
          else String c (Replace_from old new O s')
      end
  end.

Definition strings_Replace (s old new : string) : string :=
  Replace_from old new O s.

(** The newline and the backslash as one-byte strings. *)
Definition newline : string := String "010" EmptyString.
Definition backslash : string := String "\" EmptyString.

Definition Escape (str : string) : string :=
  let s := strings_Replace str "\" "\\" in
  strings_Replace s newline "\n".

Definition Unescape (arg : string) : string :=
  let s := strings_Replace arg "\n" newline in
  strings_Replace s "\\" "\".

(** The loop [for len(str) < length { str = "0" + str }]. *)
Fixpoint PadZero_loop (fuel : nat) (length : Z) (str : string) : string :=
  match fuel with
  | O => str
  | S fuel' =>
      if len str <? length then PadZero_loop fuel' length (String "0" str)
      else str
  end.

Definition PadZero (length : Z) (str : string) : string :=
  PadZero_loop (Z.to_nat (length - len str)) length str.

(** ** condition.go: ConditionFromTokens *)

Section ConditionFromTokens.

Variables Runner Breakout : Type.

(** [token.Runnable(context)] belongs to the executor. *)
Variable Token_Runnable : Token -> string -> Runnable Runner Breakout.

(** The [Runnable] that [ConditionFromTokens] returns is one of the two
    condition types. *)
Inductive ConditionRunnable :=
| AsCondition (c : list (Runnable Runner Breakout))
| AsNotCondition (n : list (Runnable Runner Breakout)).

Definition ConditionRunnable_Run (c : ConditionRunnable) (r : Runner)
  : Value + Breakout :=
  match c with
  | AsCondition c => Condition_Run c r
  | AsNotCondition n => NotCondition_Run n r
  end.

(** The text of the token is its field [String] in condition.go and
    [Text] in syntax.go. *)
Definition ConditionFromTokens (t : list Token) (context : string)
  : ConditionRunnable :=
  match t with
  | t0 :: rest =>
      if gostring_eqb (Text t0) (runes "not")
      then AsNotCondition (map (fun tk => Token_Runnable tk context) rest)
      else AsCondition (map (fun tk => Token_Runnable tk context) t)
  | [] => AsCondition (map (fun tk => Token_Runnable tk context) t)
  end.

End ConditionFromTokens.

Arguments AsCondition {Runner Breakout} c.
Arguments AsNotCondition {Runner Breakout} n.
Arguments ConditionRunnable_Run {Runner Breakout} c r.
Arguments ConditionFromTokens {Runner Breakout} Token_Runnable t context.

(** ** Definitions used to state the further properties *)

(** A rune that [WriteRune] writes unchanged and that neither ends a bare
    string nor starts an escape. *)
Definition plain_rune (IsSpace : rune -> bool) (r : rune) : bool :=
  utf8_ValidRune r && negb (IsSpace r) && negb (r =? rn ")")
  && negb (r =? rn "\").

(** The buffer is at its end, or before whitespace or a closing paren. *)
Definition at_stop (IsSpace : rune -> bool) (rest : buffer) : Prop :=
  match rest with
  | [] => True
  | r :: _ => IsSpace r || (r =? rn ")") = true
  end.

(** The buffer is at its end, or before a rune that is no whitespace. *)
Definition stop_next (IsSpace : rune -> bool) (next : buffer) : Prop :=
  match next with
  | [] => True
  | r :: _ => IsSpace r = false
  end.

(** The text [txt] is read as the token [tok], with at least [N] of fuel,
    whatever follows it in the buffer after a stop. *)
Definition reads_as (IsSpace IsDigit : rune -> bool) (N : nat)
  (txt : gostring) (tok : Token) : Prop :=
  forall fuel rest, (N <= fuel)%nat -> at_stop IsSpace rest ->
    readNextToken IsSpace IsDigit fuel (txt ++ rest) = (Ok tok, rest).

(** The text of a token starts with a rune that is no whitespace. *)
Definition starts_token (IsSpace : rune -> bool) (txt : gostring) : bool :=
  match txt with
  | [] => false
  | r :: _ => negb (IsSpace r)
  end.

(** A further token of a group: the whitespace before it (at least one
    rune), its text and the token it is read as. *)
Definition item_ok (IsSpace IsDigit : rune -> bool) (N : nat)
  (it : gostring * gostring * Token) : Prop :=
  fst (fst it) <> [] /\ forallb IsSpace (fst (fst it)) = true
  /\ starts_token IsSpace (snd (fst it)) = true
  /\ reads_as IsSpace IsDigit N (snd (fst it)) (snd it).

(** The text of the further tokens, each after its whitespace. *)
Definition items_text (more : list (gostring * gostring * Token))
  : gostring :=
  flat_map (fun it => fst (fst it) ++ snd (fst it)) more.

(** A rune that a quoted string with the quote [q] holds as it is. *)
Definition quotable_rune (q r : rune) : bool :=
  utf8_ValidRune r && negb (r =? q) && negb (r =? rn "\").

(** A word that [readNextToken] reads as one bare literal: plain runes,
    at least one, and the first starts neither a string nor a group. *)
Definition plain_word (IsSpace : rune -> bool) (w : gostring) : bool :=
  forallb (plain_rune IsSpace) w
  && match w with
     | [] => false
     | r :: _ => negb (r =? dquote) && negb (r =? rn "'")
                 && negb (r =? rn "(")
     end.

(** Words joined by one blank. *)
Fixpoint join_words (ws : list gostring) : gostring :=
  match ws with
  | [] => []
  | [w] => w
  | w :: ws' => w ++ rn " " :: join_words ws'
  end.

(** A bare literal token with the given text. *)
Definition bare_token (w : gostring) : Token := mkToken None w true.

(** A line that [ReadSyntaxLine] passes over. *)
Definition skipped_line (l : gostring * Z) : bool :=
  match fst l with
  | [] => true
  | c :: _ => c =? rn "#"
  end.

(** No byte of the string is the given one. *)
Fixpoint free_of (c : ascii) (s : string) : bool :=
  match s with
  | EmptyString => true
  | String a s' => negb (Ascii.eqb a c) && free_of c s'
  end.

(** Every byte [a] of [s] replaced by [new]. *)
Fixpoint replace_byte (a : ascii) (new s : string) : string :=
  match s with
  | EmptyString => EmptyString
  | String c s' =>
      if Ascii.eqb c a then (new ++ replace_byte a new s')%string
      else String c (replace_byte a new s')
  end.

(** [n] zero digits. *)
Fixpoint zeros (n : nat) : string :=
  match n with
  | O => EmptyString
  | S n' => String "0" (zeros n')
  end.

(** ** Definitions used to state the properties *)

(** The truth of a condition over operand strings, in the words of the
    spec: no operand, true; one, true iff it is not empty; two or more,
    true iff every operand equals the first. *)
Definition Condition_spec (l : list string) : bool :=
  match l with
  | [] => true
  | [s] => negb (String.eqb s "")
  | s :: _ => forallb (String.eqb s) l
  end.

(** The end index that [Substr] starts from. *)
Definition end_argument (s : string) (e : list Z) : Z :=
  if Z.of_nat (List.length e) =? 1 then nth 0 e 0 else len s.

(** The exact integer variant. *)
Definition is_integer (n : Number) : bool :=
  match n with NumInt _ => true | _ => false end.

Definition is_float (n : Number) : bool :=
  match n with NumFloat _ => true | _ => false end.

(** The call returned: a value or a Go error, no panic, and the fuel of
    the model was enough. *)
Definition is_result {A : Type} (o : outcome A) : bool :=
  match o with
  | Ok _ | Err _ => true
  | _ => false
  end.

(** Every group token in the tree of [t] has [Bare] false. *)
Fixpoint groups_not_bare (t : Token) : bool :=
  match t with
  | mkToken None _ _ => true
  | mkToken (Some ts) _ b => negb b && forallb groups_not_bare ts
  end.

(** A bare literal token, as [readBareString] returns it for text with
    no escape. *)
Definition lit (s : string) : Token := mkToken None (runes s) true.

(** The letter escapes and what they stand for. *)
Definition letter_codes : list (rune * rune) :=
  [(rn "a", 7); (rn "b", 8); (rn "f", 12); (rn "n", 10); (rn "r", 13);
   (rn "t", 9); (rn "v", 11)].

(** An octal digit, as [readOctalEscape] tests it. *)
Definition is_octal (r : rune) : bool := (rn "0" <=? r) && (r <? rn "8").

(** The characters that [readEscapeSequence] has a case for. *)
Definition escape_known : list rune :=
  passthrough ++ map fst letter_codes ++ [rn "x"; rn "u"; rn "U"].

(** The error of [readEscapeSequence] for a character it does not know. *)
Definition invalid_escape (r : rune) : error :=
  errors_New (runes "invalid escape character: " ++ string_of_rune r).

(** [P] holds of the [n] integers from [i] on. *)
Fixpoint all_from (P : Z -> bool) (n : nat) (i : Z) : bool :=
  match n with
  | O => true
  | S n' => P i && all_from P n' (i + 1)
  end.

(** The factorial as an integer. *)
Definition factorial_Z (n : Z) : Z := Z.of_nat (fact (Z.to_nat n)).

(** A Gamma that is never looked at, to run the integer path. *)
Definition no_Gamma (_ : float64) : float64 := S754_nan.

(* ================================================================== *)
(** * Part II: properties                                              *)
(* ================================================================== *)

(** ** Conditions *)

Section ConditionProps.

Variables Runner Breakout : Type.
Variable r : Runner.

Lemma Condition_loop_operands (l : list string) (str : string) :
  Condition_loop (map (operand (Breakout := Breakout)) l) r str
  = inl (BoolValue (forallb (fun s => String.eqb s str) l)).
Proof.
  induction l as [|s l IH]; simpl; [reflexivity|].
  destruct (String.eqb s str); simpl; [exact IH | reflexivity].
Qed.

Lemma forallb_eqb_sym (s : string) (l : list string) :
  forallb (fun x => String.eqb x s) l = forallb (String.eqb s) l.
Proof.
  induction l as [|x l IH]; simpl; [reflexivity|].
  rewrite IH, (String.eqb_sym x s). reflexivity.
Qed.

Lemma Value_Bool_BoolValue (b : bool) : Value_Bool (BoolValue b) = b.
Proof. destruct b; reflexivity. Qed.

Lemma Condition_Run_operands (l : list string) :
  exists v, Condition_Run (map (operand (Breakout := Breakout)) l) r = inl v
            /\ Value_Bool v = Condition_spec l.
Proof.
  destruct l as [|s [|s' l]].
  - exists (NewValueBool true). split; reflexivity.
  - exists (StringValue s). split; reflexivity.
  - exists (BoolValue (forallb (fun x => String.eqb x s) (s' :: l))). split.
    + change (Condition_Run (map (operand (Breakout:=Breakout)) (s :: s' :: l)) r)
        with (Condition_loop (map (operand (Breakout:=Breakout)) (s' :: l)) r s).
      apply Condition_loop_operands.
    + rewrite Value_Bool_BoolValue.
      change (Condition_spec (s :: s' :: l))
        with (String.eqb s s && forallb (String.eqb s) (s' :: l)).
      rewrite String.eqb_refl. rewrite forallb_eqb_sym. reflexivity.
Qed.

(** C2. For every list of operand strings, Condition is true for no
    operand, true iff the string is not empty for one operand, and true
    iff every string equals the first for two or more ([Condition_spec]);
    NotCondition over the same operands is the complement. *)
Theorem Condition_truth (l : list string) :
  (exists v, Condition_Run (map (operand (Breakout := Breakout)) l) r = inl v
             /\ Value_Bool v = Condition_spec l)
  /\ (exists v, NotCondition_Run (map (operand (Breakout := Breakout)) l) r
                = inl v
                /\ Value_Bool v = negb (Condition_spec l)).
Proof.
  destruct (Condition_Run_operands l) as [v [Hrun Hv]].
  split.
  - exists v. split; assumption.
  - exists (NewValueBool (negb (Value_Bool v))). split.
    + unfold NotCondition_Run. rewrite Hrun. reflexivity.
    + unfold NewValueBool. rewrite Value_Bool_BoolValue, Hv. reflexivity.
Qed.

(** The truth table of the spec. *)
Example Condition_table :
  let run l := Condition_Run (map (operand (Breakout := Breakout)) l) r in
  let nrun l := NotCondition_Run (map (operand (Breakout := Breakout)) l) r in
  (run [] = inl (BoolValue true)
   /\ run [""] = inl (StringValue "")
   /\ run ["a"] = inl (StringValue "a")
   /\ run ["a"; "a"; "a"] = inl (BoolValue true)
   /\ run ["a"; "a"; "b"] = inl (BoolValue false)
   /\ nrun ["a"; "a"; "b"] = inl (BoolValue true))%string.
Proof. repeat split. Qed.

(** A breakout of an operand ends both forms with that breakout. *)
Lemma NotCondition_breakout (c : list (Runnable Runner Breakout))
  (bo : Breakout) :
  Condition_Run c r = inr bo -> NotCondition_Run c r = inr bo.
Proof. intros H. unfold NotCondition_Run. rewrite H. reflexivity. Qed.

End ConditionProps.

(** ** Subscript *)

Lemma index_strings_in_range (l : list string) (i : Z) :
  0 <= i < Z.of_nat (List.length l) ->
  exists s, nth_error l (Z.to_nat i) = Some s /\ index_strings l i = Ok s.
Proof.
  intros Hi. unfold index_strings.
  destruct (Z.ltb_spec i 0); [lia|].
  destruct (Z.leb_spec (Z.of_nat (List.length l)) i); [lia|]. simpl.
  destruct (nth_error l (Z.to_nat i)) as [s|] eqn:E.
  - exists s. split; reflexivity.
  - apply nth_error_None in E. lia.
Qed.

(** C9. Subscript reports an error naming the index exactly when the
    index is negative or not below the length; otherwise it returns the
    element at that position as a string value; it never panics. *)
Theorem Subscript_bounds (l : list string) (i : Z) :
  ((exists e, Subscript l i = Err e)
   <-> (i < 0 \/ i >= Z.of_nat (List.length l)))
  /\ (forall e, Subscript l i = Err e ->
        e = errors_New (runes "subscript out of bounds: "
                          ++ runes (strconv_Itoa i)))
  /\ (0 <= i < Z.of_nat (List.length l) ->
        exists s, nth_error l (Z.to_nat i) = Some s
                  /\ Subscript l i = Ok (StringValue s))
  /\ (forall m, Subscript l i <> Panic m)
  /\ Subscript l i <> OutOfFuel.
Proof.
  assert (Hcases :
    (i < 0 \/ i >= Z.of_nat (List.length l))
    /\ Subscript l i = Err (errors_New (runes "subscript out of bounds: "
                                          ++ runes (strconv_Itoa i)))
    \/ 0 <= i < Z.of_nat (List.length l)
       /\ exists s, nth_error l (Z.to_nat i) = Some s
                    /\ Subscript l i = Ok (StringValue s)).
  { unfold Subscript.
    destruct (Z.ltb_spec i 0) as [Hneg|Hnn]; simpl orb.
    - left. split; [lia | reflexivity].
    - destruct (Z.geb_spec i (Z.of_nat (List.length l))) as [Hge|Hlt].
      + left. split; [lia | reflexivity].
      + right. split; [lia|].
        destruct (index_strings_in_range l i) as [s [Hs Hix]]; [lia|].
        exists s. rewrite Hix. split; [assumption | reflexivity]. }
  destruct Hcases as [[Hout Herr] | [Hin [s [Hs Hok]]]].
  - rewrite Herr. repeat split; try discriminate.
    + intros _. exact Hout.
    + intros _. eexists. reflexivity.
    + intros e [= <-]. reflexivity.
    + intros Hin. lia.
  - rewrite Hok. repeat split; try discriminate.
    + intros [e He]. discriminate.
    + intros Hout. lia.
    + intros _. exists s. split; [assumption | reflexivity].
Qed.

Example Subscript_examples :
  (Subscript ["a"; "b"] 1 = Ok (StringValue "b")
   /\ Subscript ["a"; "b"] 2
      = Err (errors_New (runes "subscript out of bounds: 2"))
   /\ Subscript ["a"; "b"] (-12)
      = Err (errors_New (runes "subscript out of bounds: -12")))%string.
Proof. repeat split. Qed.

(** ** Substr *)

Lemma clamp_start_range (s : string) (start : Z) :
  0 <= clamp_start s start <= len s.
Proof.
  unfold clamp_start, len.
  destruct (Z.ltb_spec start 0); [lia|].
  destruct (Z.ltb_spec (Z.of_nat (String.length s)) start); lia.
Qed.

Lemma clamp_end_range (s : string) (start end_ : Z) :
  0 <= start <= len s ->
  start <= clamp_end s start end_ <= len s.
Proof.
  intros H. unfold clamp_end.
  destruct (Z.ltb_spec end_ start); [lia|].
  destruct (Z.ltb_spec (len s) end_); lia.
Qed.

Lemma slice_in_range (s : string) (lo hi : Z) :
  0 <= lo <= hi -> hi <= len s ->
  slice s lo hi = Ok (substring (Z.to_nat lo) (Z.to_nat (hi - lo)) s).
Proof.
  intros H1 H2. unfold slice.
  destruct (Z.leb_spec 0 lo); [|lia].
  destruct (Z.leb_spec lo hi); [|lia].
  destruct (Z.leb_spec hi (len s)); [|lia]. reflexivity.
Qed.

Lemma len_zero (s : string) : len s = 0 <-> s = ""%string.
Proof.
  unfold len. destruct s; simpl; split; intros H; try reflexivity;
    try discriminate; lia.
Qed.

(** C10. Substr never fails on an index: an empty string gives the empty
    string whatever the trailing arguments are; a non-empty string with
    more than one trailing argument is the only error; otherwise start is
    clamped into [0, len s] and end into [start, len s], and the result is
    that slice. No input makes it panic. *)
Theorem Substr_total (s : string) (start : Z) (e : list Z) :
  let st := clamp_start s start in
  let en := clamp_end s st (end_argument s e) in
  (forall m, Substr s start e <> Panic m)
  /\ Substr s start e <> OutOfFuel
  /\ (s = ""%string -> Substr s start e = Ok ""%string)
  /\ (s <> ""%string -> (1 < List.length e)%nat ->
        Substr s start e
        = Err (errors_New (runes "expected 2 or 3 arguments")))
  /\ (s <> ""%string -> (List.length e <= 1)%nat ->
        0 <= st <= len s /\ st <= en <= len s
        /\ Substr s start e
           = Ok (substring (Z.to_nat st) (Z.to_nat (en - st)) s)).
Proof.
  intros st en.
  pose proof (clamp_start_range s start) as Hst.
  pose proof (clamp_end_range s st (end_argument s e) Hst) as Hen.
  fold st in Hst, Hen. fold en in Hen.
  assert (Hslice : slice s st en
                   = Ok (substring (Z.to_nat st) (Z.to_nat (en - st)) s))
    by (apply slice_in_range; lia).
  unfold Substr. fold (end_argument s e). fold st. fold en.
  destruct (Z.eqb_spec (len s) 0) as [H0|H0].
  - apply len_zero in H0. subst s.
    repeat split; try discriminate; try reflexivity; intros; try congruence.
  - assert (Hs : s <> ""%string) by (intros ->; apply H0; reflexivity).
    destruct (Z.ltb_spec 1 (Z.of_nat (List.length e))) as [Hmany|Hfew].
    + repeat split; try discriminate; try (intros; congruence); try lia.
    + rewrite Hslice.
      repeat split; try discriminate; try (intros; congruence); try lia.
Qed.

Example Substr_examples :
  (Substr "hello" 1 [3] = Ok "el"
   /\ Substr "hello" (-1) [30] = Ok "hello"
   /\ Substr "hello" 4 [2] = Ok ""
   /\ Substr "" 4 [2; 3] = Ok ""
   /\ Substr "a" 4 [2; 3]
      = Err (errors_New (runes "expected 2 or 3 arguments")))%string.
Proof. repeat split. Qed.

(** ** Numbers: abs, floor, ceil, round *)

Lemma Qcompare_inject_Z (a b : Z) :
  Qcompare (inject_Z a) (inject_Z b) = Z.compare a b.
Proof. unfold Qcompare, inject_Z. simpl. rewrite !Z.mul_1_r. reflexivity. Qed.

Lemma CompareNumbers_integers (a b : Z) :
  CompareNumbers (NumInt a) (NumInt b)
  = match Z.compare a b with Lt => -1 | Eq => 0 | Gt => 1 end.
Proof.
  unfold CompareNumbers. simpl. rewrite Qcompare_inject_Z. reflexivity.
Qed.

Lemma Abs_of_integer (i : Z) : Abs (NumInt i) = NumInt (Z.abs i).
Proof.
  unfold Abs, NewNumberInt. rewrite CompareNumbers_integers.
  destruct (Z.compare_spec i 0) as [H|H|H].
  - subst i. reflexivity.
  - change (-1 =? -1) with true. cbv iota.
    change (MultiplyNumbers (NumInt (-1)) (NumInt i)) with (NumInt (-1 * i)).
    f_equal. lia.
  - change (1 =? -1) with false. cbv iota. f_equal. lia.
Qed.

Lemma Abs_of_float (f : float64) : is_float (Abs (NumFloat f)) = true.
Proof.
  unfold Abs.
  destruct (CompareNumbers (NumFloat f) (NewNumberInt 0) =? -1); reflexivity.
Qed.

(** C4, as stated, fails for abs: the absolute value of the float 1.5 is
    the float 1.5 again, which is no exact integer. *)
Lemma Abs_float_counterexample :
  Abs (NewNumberFloat (f64 3 (-1))) = NewNumberFloat (f64 3 (-1))
  /\ is_integer (Abs (NewNumberFloat (f64 3 (-1)))) = false
  /\ Number_Float (NewNumberFloat (f64 3 (-1)))
     = f64_div (float64_of_Z 3) (float64_of_Z 2).
Proof. repeat split. Qed.

(** C4, amended. For every float input floor, ceil and round return an
    exact integer Number. abs returns an exact integer (the absolute
    value) for an integer input; for a float input it returns a float. *)
Theorem rounding_returns_integers :
  (forall f : float64,
     is_integer (Floor f) = true /\ is_integer (Ceil f) = true
     /\ is_integer (Round f) = true)
  /\ (forall i : Z, Abs (NumInt i) = NumInt (Z.abs i))
  /\ (forall f : float64, is_float (Abs (NumFloat f)) = true).
Proof.
  split; [|split].
  - intros f. repeat split.
  - exact Abs_of_integer.
  - exact Abs_of_float.
Qed.

(** 2.5 and -2.5, a NaN and 2^200 through the three roundings. *)
Example rounding_examples :
  Floor (f64 5 (-1)) = NumInt 2 /\ Floor (f64 (-5) (-1)) = NumInt (-3)
  /\ Ceil (f64 5 (-1)) = NumInt 3 /\ Ceil (f64 (-5) (-1)) = NumInt (-2)
  /\ Round (f64 5 (-1)) = NumInt 3 /\ Round (f64 (-5) (-1)) = NumInt (-2)
  /\ Floor S754_nan = NumInt 0 /\ Floor (f64 1 200) = NumInt (2 ^ 200).
Proof. vm_compute. repeat split. Qed.

(** ** Numbers: modulus *)

Lemma big_Int_Mod_euclidean (x y : Z) :
  y <> 0 ->
  exists r, big_Int_Mod x y = Ok r /\ 0 <= r < Z.abs y
            /\ exists q, x = q * y + r.
Proof.
  intros Hy. unfold big_Int_Mod.
  destruct (Z.eqb_spec y 0) as [|_]; [contradiction|].
  pose proof (Z.quot_rem' x y) as Hqr.
  pose proof (Z.rem_bound_abs x y Hy) as Hb.
  set (r := Z.rem x y) in *. set (q := Z.quot x y) in *.
  eexists. split; [reflexivity|].
  destruct (Z.ltb_spec r 0) as [Hr|Hr].
  - destruct (Z.ltb_spec y 0) as [Hyn|Hyn].
    + split; [lia|]. exists (q + 1). lia.
    + split; [lia|]. exists (q - 1). lia.
  - split; [lia|]. exists q. lia.
Qed.

Lemma big_Int_Mod_zero (x : Z) : big_Int_Mod x 0 = Panic "division by zero".
Proof. reflexivity. Qed.

(** All of [Mod]: when both operands are integral the modulus is the
    integer remainder of math/big (in [0, |b|), differing from [a] by a
    multiple of [b]), and a zero [b] panics there; otherwise it is the
    floating [a - floor(a/b)*b], which is floored, not truncated: -1.5
    mod 1 is 0.5. *)
Lemma Mod_integer_or_floored (num modulus : Number) :
  match Number_Int num, Number_Int modulus with
  | Some i1, Some i2 =>
      if i2 =? 0 then Mod num modulus = Panic "division by zero"
      else exists r, Mod num modulus = Ok (NumInt r)
                     /\ 0 <= r < Z.abs i2 /\ exists q, i1 = q * i2 + r
  | _, _ =>
      Mod num modulus
      = Ok (NumFloat
              (f64_sub (Number_Float num)
                 (f64_mul
                    (math_Floor
                       (f64_div (Number_Float num) (Number_Float modulus)))
                    (Number_Float modulus))))
  end
  /\ Mod (NumFloat (f64 (-3) (-1))) (NumInt 1) = Ok (NumFloat (f64 1 (-1))).
Proof.
  split; [|vm_compute; reflexivity].
  unfold Mod.
  destruct (Number_Int num) as [i1|]; [|reflexivity].
  destruct (Number_Int modulus) as [i2|]; [|reflexivity].
  destruct (Z.eqb_spec i2 0) as [->|Hnz].
  - reflexivity.
  - destruct (big_Int_Mod_euclidean i1 i2 Hnz) as [r [Hr [Hb Hq]]].
    exists r. rewrite Hr. repeat split; try lia. exact Hq.
Qed.

Example Mod_examples :
  Mod (NumInt (-7)) (NumInt 3) = Ok (NumInt 2)
  /\ Mod (NumInt 7) (NumInt (-3)) = Ok (NumInt 1)
  /\ Mod (NumInt (-7)) (NumInt (-3)) = Ok (NumInt 2)
  /\ Mod (NumFloat (f64 11 (-1))) (NumInt 2) = Ok (NumFloat (f64 3 (-1))).
Proof. vm_compute. repeat split. Qed.

(** C8, as stated, fails at an integral zero modulus: [Mod] hands both
    integers to [big.Int.Mod], which panics on a zero divisor, so 1 mod 0
    is no remainder but a run-time panic. *)
Lemma Mod_zero_counterexample :
  Mod (NewNumberInt 1) (NewNumberInt 0) = Panic "division by zero"
  /\ Number_Int (NewNumberInt 1) = Some 1
  /\ Number_Int (NewNumberInt 0) = Some 0.
Proof. repeat split. Qed.

(** C8, amended. For every pair of Numbers other than two integral
    operands with a zero modulus: when both operands are integral the
    modulus is the true integer remainder, in [0, |b|) and differing from
    [a] by a multiple of [b]; otherwise it is the floored floating
    remainder [a - floor(a/b)*b], not the truncated one (-1.5 mod 1 is
    0.5). *)
Theorem Mod_remainder (num modulus : Number) :
  (forall i1, Number_Int num = Some i1 -> Number_Int modulus <> Some 0) ->
  match Number_Int num, Number_Int modulus with
  | Some i1, Some i2 =>
      exists r, Mod num modulus = Ok (NumInt r)
                /\ 0 <= r < Z.abs i2 /\ exists q, i1 = q * i2 + r
  | _, _ =>
      Mod num modulus
      = Ok (NumFloat
              (f64_sub (Number_Float num)
                 (f64_mul
                    (math_Floor
                       (f64_div (Number_Float num) (Number_Float modulus)))
                    (Number_Float modulus))))
  end
  /\ Mod (NumFloat (f64 (-3) (-1))) (NumInt 1) = Ok (NumFloat (f64 1 (-1))).
Proof.
  intros Hnz. split; [|vm_compute; reflexivity].
  unfold Mod.
  destruct (Number_Int num) as [i1|]; [|reflexivity].
  destruct (Number_Int modulus) as [i2|]; [|reflexivity].
  assert (Hi2 : i2 <> 0).
  { intros ->. exact (Hnz i1 eq_refl eq_refl). }
  destruct (big_Int_Mod_euclidean i1 i2 Hi2) as [r [Hr [Hb Hq]]].
  exists r. rewrite Hr. repeat split; try lia. exact Hq.
Qed.

Lemma Mod_remainder_witness :
  (exists r, Mod (NumInt (-7)) (NumInt 3) = Ok (NumInt r)
             /\ 0 <= r < Z.abs 3 /\ exists q, -7 = q * 3 + r)
  /\ Mod (NumFloat (f64 (-3) (-1))) (NumInt 1) = Ok (NumFloat (f64 1 (-1))).
Proof.
  exact (Mod_remainder (NumInt (-7)) (NumInt 3)
           ltac:(intros i1 _; discriminate)).
Defined.

(** ** Numbers: factorial *)

Section FactorialProps.

Variable math_Gamma : float64 -> float64.

Lemma all_from_spec (P : Z -> bool) (n : nat) (i : Z) :
  all_from P n i = true ->
  forall j, i <= j < i + Z.of_nat n -> P j = true.
Proof.
  revert i. induction n as [|n IH]; intros i H j Hj; [lia|].
  cbn [all_from] in H. apply andb_prop in H. destruct H as [Hi Hrest].
  destruct (Z.eq_dec j i) as [->|Hne]; [exact Hi|].
  apply (IH (i + 1) Hrest). lia.
Qed.

(** Every integer below the ceiling goes to [float64] and back unchanged. *)
Lemma int_of_float64_small (i : Z) :
  0 <= i < 65536 -> int_of_float64 (float64_of_Z i) = i.
Proof.
  assert (H : all_from (fun j => int_of_float64 (float64_of_Z j) =? j)
                (Z.to_nat 65536) 0 = true)
    by (vm_compute; reflexivity).
  intros Hi. apply Z.eqb_eq.
  apply (all_from_spec _ _ _ H). lia.
Qed.

Lemma factorial_Z_step (i : Z) :
  1 <= i -> factorial_Z (i - 1) * i = factorial_Z i.
Proof.
  intros Hi. unfold factorial_Z.
  replace (Z.to_nat i) with (S (Z.to_nat (i - 1))) by lia.
  cbn [fact]. rewrite Nat2Z.inj_mul, Nat2Z.inj_succ, Z2Nat.id by lia. lia.
Qed.

(** The loop multiplies [i], ..., [bound - 1] onto the product so far. *)
Lemma Factorial_loop_fact (fuel : nat) (bound i : Z) :
  1 <= i <= bound -> (Z.to_nat (bound - i) <= fuel)%nat ->
  Factorial_loop fuel bound i (factorial_Z (i - 1)) = factorial_Z (bound - 1).
Proof.
  revert i. induction fuel as [|fuel IH]; intros i Hi Hf; simpl.
  - assert (i = bound) by lia. subst. reflexivity.
  - destruct (Z.ltb_spec i bound) as [Hlt|Hge].
    + rewrite factorial_Z_step by lia.
      replace i with (i + 1 - 1) at 2 by lia. apply IH; lia.
    + assert (i = bound) by lia. subst. reflexivity.
Qed.

(** What the integer path returns: the factorial of [i - 1]. *)
Lemma Factorial_integer_path (i : Z) :
  0 <= i < 65536 ->
  Factorial math_Gamma (NewNumberInt i)
  = Ok (NewNumberBig (factorial_Z (i - 1))).
Proof.
  intros Hi. unfold Factorial, NewNumberInt. simpl Number_Int. simpl orb.
  rewrite !CompareNumbers_integers.
  destruct (Z.compare_spec i 0) as [H0|H0|H0]; try lia;
    destruct (Z.compare_spec i 65536) as [H1|H1|H1]; try lia; simpl;
    rewrite int_of_float64_small by lia; do 2 f_equal.
  - subst i. reflexivity.
  - destruct (Z.eq_dec i 1) as [->|Hne]; [reflexivity|].
    change 1 with (factorial_Z (2 - 1)) at 1.
    apply Factorial_loop_fact; lia.
Qed.

(** At or above the ceiling the integer path refuses. *)
Lemma Factorial_too_big (i : Z) :
  65536 <= i ->
  Factorial math_Gamma (NewNumberInt i)
  = Err (errors_New (runes "argument too big")).
Proof.
  intros Hi. unfold Factorial, NewNumberInt. simpl Number_Int. simpl orb.
  rewrite !CompareNumbers_integers.
  destruct (Z.compare_spec i 0) as [H0|H0|H0]; try lia;
    destruct (Z.compare_spec i 65536) as [H1|H1|H1]; try lia; reflexivity.
Qed.

(** A number that is no integer, or is negative, goes through Gamma, and
    a NaN or infinite result is an error. *)
Lemma Factorial_gamma_path (n : Number) :
  Number_Int n = None \/ CompareNumbers n (NewNumberInt 0) < 0 ->
  Factorial math_Gamma n
  = let ans := math_Gamma (Number_Float n) in
    if math_IsNaN ans || math_IsInf ans
    then Err (errors_New (runes "cannot compute gamma result"))
    else Ok (NewNumberFloat ans).
Proof.
  intros H. unfold Factorial.
  destruct (Number_Int n) as [i|].
  - destruct H as [H|H]; [discriminate|].
    destruct (Z.ltb_spec (CompareNumbers n (NewNumberInt 0)) 0); [|lia].
    reflexivity.
  - reflexivity.
Qed.

(** C1, at the failing input. Factorial(5) returns the exact integer 24,
    the factorial of 4: the loop stops before it multiplies by 5. The
    factorial of 5 is 120. *)
Theorem Factorial_of_5 :
  Factorial math_Gamma (NewNumberInt 5) = Ok (NewNumberBig 24)
  /\ factorial_Z 5 = 120.
Proof.
  split.
  - rewrite Factorial_integer_path by lia. reflexivity.
  - reflexivity.
Qed.

End FactorialProps.

(** ** The lexer: the bare flag *)

Section LexerProps.

Variable IsSpace : rune -> bool.
Variable IsDigit : rune -> bool.

Lemma readNestedCommand_finish_ok (tokens ts : list Token) (b b' : buffer) :
  readNestedCommand_finish tokens b = (Ok ts, b') ->
  ts = tokens /\ b' = b /\ tokens <> [].
Proof.
  destruct tokens; simpl; intros H; inversion H; subst.
  repeat split. discriminate.
Qed.

(** The flag that [readBareString] returns is true exactly when the
    decoder was never called. *)
Lemma readBareString_loop_bare (fuel : nat) :
  forall str bare n b tok m b',
    readBareString_loop IsSpace IsDigit fuel str bare n b = (Ok (tok, m), b') ->
    (n <= m)%nat /\ Command tok = None
    /\ Bare tok = bare && (m =? n)%nat.
Proof.
  induction fuel as [|fuel IH]; intros str bare n b tok m b' H; simpl in H.
  - discriminate.
  - destruct b as [|r b0].
    + inversion H; subst. simpl. rewrite Nat.eqb_refl, andb_true_r. auto.
    + destruct (IsSpace r || (r =? rn ")")).
      * inversion H; subst. simpl. rewrite Nat.eqb_refl, andb_true_r. auto.
      * destruct (r =? rn "\").
        -- destruct (readEscapeSequence IsDigit b0) as [[seq|e|msg|] b''];
             simpl in H; try discriminate.
           apply IH in H. destruct H as [Hle [Hc Hb]].
           repeat split; [lia | exact Hc |].
           rewrite Hb. simpl.
           destruct (Nat.eqb_spec m n); [lia|].
           rewrite andb_false_r. reflexivity.
        -- apply IH in H. exact H.
Qed.

Lemma readBareString_counted_bare (fuel : nat) (b b' : buffer) (tok : Token)
  (n : nat) :
  readBareString_counted IsSpace IsDigit fuel b = (Ok (tok, n), b') ->
  Command tok = None /\ Bare tok = (n =? 0)%nat.
Proof.
  intros H. apply readBareString_loop_bare in H.
  destruct H as [_ [Hc Hb]]. split; [exact Hc | exact Hb].
Qed.

Lemma readBareString_ok (fuel : nat) (b b' : buffer) (tok : Token) :
  readBareString IsSpace IsDigit fuel b = (Ok tok, b') ->
  exists n, readBareString_counted IsSpace IsDigit fuel b = (Ok (tok, n), b').
Proof.
  unfold readBareString.
  destruct (readBareString_counted IsSpace IsDigit fuel b)
    as [[[t n]|e|msg|] b'']; simpl; intros H; inversion H; subst.
  exists n. reflexivity.
Qed.

(** One round of each of the two functions that call each other. *)
Lemma readNextToken_S (fuel : nat) (r : rune) (b : buffer) :
  readNextToken IsSpace IsDigit (S fuel) (r :: b)
  = if r =? dquote then
      match readQuotedString IsDigit fuel dquote b with
      | (Ok str, b'') => (Ok (mkToken None str false), b'')
      | (o, b'') => (fail_as Token o, b'')
      end
    else if r =? rn "'" then
      match readQuotedString IsDigit fuel (rn "'") b with
      | (Ok str, b'') => (Ok (mkToken None str false), b'')
      | (o, b'') => (fail_as Token o, b'')
      end
    else if r =? rn "(" then
      match readNestedCommand IsSpace IsDigit fuel b with
      | (Ok tokens, b'') => (Ok (mkToken (Some tokens) [] false), b'')
      | (o, b'') => (fail_as Token o, b'')
      end
    else if r =? rn ")" then (Err ErrUnexpectedCloseParen, b)
    else readBareString IsSpace IsDigit fuel (r :: b).
Proof. reflexivity. Qed.

Lemma readNestedCommand_loop_S (fuel : nat) (tokens : list Token)
  (b : buffer) :
  readNestedCommand_loop IsSpace IsDigit (S fuel) tokens b
  = match readNextToken IsSpace IsDigit fuel b with
    | (Err ErrUnexpectedCloseParen, b') => readNestedCommand_finish tokens b'
    | (Err io_EOF, b') => (Err ErrMissingCloseParen, b')
    | (Ok token, b') =>
        match b' with
        | r :: b'' =>
            if r =? rn ")"
            then readNestedCommand_finish (tokens ++ [token]) b''
            else
              match readSpace IsSpace b' with
              | (Ok true, b3) =>
                  readNestedCommand_loop IsSpace IsDigit fuel
                    (tokens ++ [token]) b3
              | (Ok false, b3) => (Err ErrMissingWhitespace, b3)
              | (o, b3) => (fail_as (list Token) o, b3)
              end
        | [] =>
            match readSpace IsSpace b' with
            | (Ok true, b3) =>
                readNestedCommand_loop IsSpace IsDigit fuel
                  (tokens ++ [token]) b3
            | (Ok false, b3) => (Err ErrMissingWhitespace, b3)
            | (o, b3) => (fail_as (list Token) o, b3)
            end
        end
    | (o, b') => (fail_as (list Token) o, b')
    end.
Proof. reflexivity. Qed.

Lemma readSpace_ok (b : buffer) :
  exists g b', readSpace IsSpace b = (Ok g, b').
Proof.
  destruct b as [|r b]; simpl; [eauto|].
  destruct (IsSpace r).
  - destruct (readSpace_loop IsSpace b true) as [g b']. eauto.
  - eauto.
Qed.

(** Tokens and groups keep the shape the claim gives them, at every depth
    of nesting. *)
Lemma lexer_groups_not_bare (fuel : nat) :
  (forall b tok b',
     readNextToken IsSpace IsDigit fuel b = (Ok tok, b') ->
     groups_not_bare tok = true)
  /\ (forall tokens b ts b',
        forallb groups_not_bare tokens = true ->
        readNestedCommand_loop IsSpace IsDigit fuel tokens b = (Ok ts, b') ->
        forallb groups_not_bare ts = true /\ ts <> []).
Proof.
  induction fuel as [|fuel [IHt IHl]]; split.
  - intros b tok b' H. discriminate.
  - intros tokens b ts b' _ H. discriminate.
  - intros b tok b' H. destruct b as [|r b]; [discriminate|].
    rewrite readNextToken_S in H.
    destruct (r =? dquote).
    { destruct (readQuotedString IsDigit fuel dquote b) as [[str|e|msg|] b''];
        inversion H; subst; reflexivity. }
    destruct (r =? rn "'").
    { destruct (readQuotedString IsDigit fuel (rn "'") b)
        as [[str|e|msg|] b'']; inversion H; subst; reflexivity. }
    destruct (r =? rn "(").
    { unfold readNestedCommand in H.
      destruct (readNestedCommand_loop IsSpace IsDigit fuel []
                  (snd (readSpace IsSpace b))) as [[ts|e|msg|] b''] eqn:E;
        inversion H; subst.
      apply IHl in E; [|reflexivity]. simpl. apply E. }
    destruct (r =? rn ")"); [discriminate|].
    apply readBareString_ok in H. destruct H as [n H].
    apply readBareString_counted_bare in H. destruct H as [Hc _].
    destruct tok as [c t bf]. simpl in Hc. subst c. reflexivity.
  - intros tokens b ts b' Htok H.
    rewrite readNestedCommand_loop_S in H.
    destruct (readNextToken IsSpace IsDigit fuel b) as [[t|e|msg|] b1] eqn:E.
    + assert (Hall : forallb groups_not_bare (tokens ++ [t]) = true).
      { rewrite forallb_app, Htok. simpl. rewrite (IHt _ _ _ E). reflexivity. }
      assert (Hgo : forall b3,
                 match readSpace IsSpace b3 with
                 | (Ok true, b4) =>
                     readNestedCommand_loop IsSpace IsDigit fuel
                       (tokens ++ [t]) b4
                 | (Ok false, b4) => (Err ErrMissingWhitespace, b4)
                 | (o, b4) => (fail_as (list Token) o, b4)
                 end = (Ok ts, b') ->
                 forallb groups_not_bare ts = true /\ ts <> []).
      { intros b3 H3.
        destruct (readSpace_ok b3) as [g [b4 Hs]]. rewrite Hs in H3.
        destruct g; [|discriminate]. exact (IHl _ _ _ _ Hall H3). }
      destruct b1 as [|r1 b1'].
      * exact (Hgo [] H).
      * destruct (r1 =? rn ")").
        -- apply readNestedCommand_finish_ok in H.
           destruct H as [-> [_ Hne]]. split; assumption.
        -- exact (Hgo (r1 :: b1') H).
    + destruct e; try discriminate.
      apply readNestedCommand_finish_ok in H.
      destruct H as [-> [_ Hne]]. split; assumption.
    + discriminate.
    + discriminate.
Qed.

(** C7. A token that [readNextToken] returns after a quote is a literal
    with [Bare] false; after an opening paren it is a group with [Bare]
    false and a non-empty list of children; otherwise it is the literal of
    [readBareString], whose [Bare] is true exactly when the escape decoder
    was called zero times. Every group nested in it has [Bare] false. *)
Theorem bare_flag (fuel : nat) (b b' : buffer) (tok : Token) :
  readNextToken IsSpace IsDigit fuel b = (Ok tok, b') ->
  groups_not_bare tok = true
  /\ exists r rest fuel',
       b = r :: rest /\ fuel = S fuel'
       /\ if (r =? dquote) || (r =? rn "'")
          then Bare tok = false /\ Command tok = None
          else if r =? rn "("
          then Bare tok = false
               /\ exists ts, Command tok = Some ts /\ ts <> []
          else exists escapes,
                 readBareString_counted IsSpace IsDigit fuel' b
                 = (Ok (tok, escapes), b')
                 /\ Command tok = None
                 /\ Bare tok = (escapes =? 0)%nat.
Proof.
  intros H. split; [exact (proj1 (lexer_groups_not_bare fuel) _ _ _ H)|].
  destruct fuel as [|fuel]; [discriminate|].
  destruct b as [|r b]; [discriminate|].
  exists r, b, fuel. split; [reflexivity|]. split; [reflexivity|].
  rewrite readNextToken_S in H.
  destruct (r =? dquote).
  { destruct (readQuotedString IsDigit fuel dquote b) as [[str|e|msg|] b''];
      inversion H; subst. split; reflexivity. }
  destruct (r =? rn "'").
  { destruct (readQuotedString IsDigit fuel (rn "'") b) as [[str|e|msg|] b''];
      inversion H; subst. split; reflexivity. }
  simpl orb. cbv iota.
  destruct (r =? rn "(").
  { unfold readNestedCommand in H.
    destruct (readNestedCommand_loop IsSpace IsDigit fuel []
                (snd (readSpace IsSpace b))) as [[ts|e|msg|] b''] eqn:E;
      inversion H; subst.
    split; [reflexivity|]. exists ts. split; [reflexivity|].
    exact (proj2 (proj2 (lexer_groups_not_bare fuel) [] _ _ _ eq_refl E)). }
  destruct (r =? rn ")"); [discriminate|].
  apply readBareString_ok in H. destruct H as [n H].
  exists n. split; [exact H|].
  exact (readBareString_counted_bare _ _ _ _ _ H).
Qed.

End LexerProps.

(** A token with an escape that decodes to the character itself is not
    bare; the same text without the backslash is. *)
Lemma bare_flag_witness :
  lexToken (runes "a\?b c")
  = (Ok (mkToken None (runes "a?b") false), runes " c")
  /\ lexToken (runes "a?b c") = (Ok (lit "a?b"), runes " c")
  /\ groups_not_bare (mkToken None (runes "a?b") false) = true
  /\ exists r rest fuel',
       runes "a\?b c" = r :: rest
       /\ fuel_for (runes "a\?b c") = S fuel'
       /\ if (r =? dquote) || (r =? rn "'")
          then Bare (mkToken None (runes "a?b") false) = false
               /\ Command (mkToken None (runes "a?b") false) = None
          else if r =? rn "("
          then Bare (mkToken None (runes "a?b") false) = false
               /\ exists ts, Command (mkToken None (runes "a?b") false)
                             = Some ts /\ ts <> []
          else exists escapes,
            readBareString_counted Unicode.IsSpace Unicode.IsDigit fuel'
              (runes "a\?b c")
            = (Ok (mkToken None (runes "a?b") false, escapes), runes " c")
            /\ Command (mkToken None (runes "a?b") false) = None
            /\ Bare (mkToken None (runes "a?b") false) = (escapes =? 0)%nat.
Proof.
  split; [reflexivity|]. split; [reflexivity|].
  exact (bare_flag Unicode.IsSpace Unicode.IsDigit
           (fuel_for (runes "a\?b c")) (runes "a\?b c") (runes " c")
           (mkToken None (runes "a?b") false) eq_refl).
Defined.

(** ** The lexer: escape sequences *)

Section EscapeProps.

Variable IsDigit : rune -> bool.

Lemma escape_passthrough (r : rune) (b : buffer) :
  In r passthrough -> readEscapeSequence IsDigit (r :: b) = (Ok r, b).
Proof.
  intros H. unfold readEscapeSequence.
  assert (E : existsb (Z.eqb r) passthrough = true).
  { apply existsb_exists. exists r. split; [exact H | apply Z.eqb_refl]. }
  rewrite E. reflexivity.
Qed.

Lemma escape_letter (c v : rune) (b : buffer) :
  In (c, v) letter_codes -> readEscapeSequence IsDigit (c :: b) = (Ok v, b).
Proof.
  unfold letter_codes. simpl In. intros H.
  repeat (destruct H as [H|H]; [inversion H; subst; reflexivity|]).
  contradiction.
Qed.

Lemma escape_at_end :
  readEscapeSequence IsDigit [] = (Err ErrEscapeCodeUnderflow, []).
Proof. reflexivity. Qed.

Lemma readNumericEscape_loop_short (n : nat) :
  forall rs b, (List.length b < n)%nat ->
    readNumericEscape_loop n rs b = (Err ErrEscapeCodeUnderflow, []).
Proof.
  induction n as [|n IH]; intros rs b H; [lia|].
  destruct b as [|r b]; simpl; [reflexivity|].
  apply IH. simpl in H. lia.
Qed.

(** Too few characters after x, u or U: the underflow error. *)
Lemma escape_hex_underflow (c : rune) (width : nat) (b : buffer) :
  In (c, width) [(rn "x", 2%nat); (rn "u", 4%nat); (rn "U", 8%nat)] ->
  (List.length b < width)%nat ->
  readEscapeSequence IsDigit (c :: b) = (Err ErrEscapeCodeUnderflow, []).
Proof.
  simpl In. intros H Hlen.
  assert (E : readEscapeSequence IsDigit (c :: b) = readNumericEscape width b).
  { repeat (destruct H as [H|H]; [inversion H; subst; reflexivity|]).
    contradiction. }
  rewrite E. unfold readNumericEscape.
  rewrite readNumericEscape_loop_short by exact Hlen. reflexivity.
Qed.

Lemma escape_8_9 (b : buffer) :
  readEscapeSequence IsDigit (rn "8" :: b) = (Err (invalid_escape (rn "8")), b)
  /\ readEscapeSequence IsDigit (rn "9" :: b)
     = (Err (invalid_escape (rn "9")), b).
Proof.
  unfold readEscapeSequence. simpl.
  rewrite !orb_true_r. split; reflexivity.
Qed.

(** What is left of [readEscapeSequence] for a character with no case of
    its own. *)
Lemma escape_default (r : rune) (b : buffer) :
  ~ In r escape_known ->
  readEscapeSequence IsDigit (r :: b)
  = if negb (IsDigit r) || (r =? rn "8") || (r =? rn "9")
    then (Err (invalid_escape r), b)
    else readOctalEscape (r :: b).
Proof.
  intros Hk. unfold readEscapeSequence.
  destruct (existsb (Z.eqb r) passthrough) eqn:E.
  { exfalso. apply Hk. apply existsb_exists in E.
    destruct E as [x [Hx Hrx]]. apply Z.eqb_eq in Hrx. subst x.
    unfold escape_known. apply in_or_app. left. exact Hx. }
  assert (Hne : forall c, In c (map fst letter_codes
                                 ++ [rn "x"; rn "u"; rn "U"]) ->
                          (r =? c) = false).
  { intros c Hc. apply Z.eqb_neq. intros ->. apply Hk.
    unfold escape_known. apply in_or_app. right. exact Hc. }
  rewrite !Hne by (simpl; tauto). reflexivity.
Qed.

(** A character that is no digit for [unicode.IsDigit] is an invalid
    escape. *)
Lemma escape_invalid (r : rune) (b : buffer) :
  ~ In r escape_known -> IsDigit r = false ->
  readEscapeSequence IsDigit (r :: b) = (Err (invalid_escape r), b).
Proof.
  intros Hk Hd. rewrite escape_default by exact Hk. rewrite Hd. reflexivity.
Qed.

(** A digit for [unicode.IsDigit] outside 0..9 reaches [readOctalEscape],
    which reads nothing and reports an underflow. *)
Lemma escape_foreign_digit (r : rune) (b : buffer) :
  ~ In r escape_known -> IsDigit r = true -> r < rn "0" \/ rn "9" < r ->
  readEscapeSequence IsDigit (r :: b) = (Err ErrEscapeCodeUnderflow, r :: b).
Proof.
  intros Hk Hd Hr. rewrite escape_default by exact Hk. rewrite Hd.
  change (rn "0") with 48 in *. change (rn "9") with 57 in *.
  change (rn "8") with 56.
  destruct (Z.eqb_spec r 56); [lia|]. destruct (Z.eqb_spec r 57); [lia|].
  simpl negb. simpl orb. cbv iota.
  unfold readOctalEscape, readOctalEscape_loop.
  change (rn "0") with 48. change (rn "8") with 56.
  destruct (Z.leb_spec 48 r); destruct (Z.ltb_spec r 56); simpl;
    try reflexivity. lia.
Qed.

(** An octal digit starts an octal escape. *)
Lemma escape_octal (d : rune) (b : buffer) :
  is_octal d = true -> IsDigit d = true ->
  readEscapeSequence IsDigit (d :: b) = readOctalEscape (d :: b).
Proof.
  intros Ho Hd. unfold is_octal in Ho. apply andb_prop in Ho.
  destruct Ho as [H0 H8]. apply Z.leb_le in H0. apply Z.ltb_lt in H8.
  change (rn "0") with 48 in H0. change (rn "8") with 56 in H8.
  rewrite escape_default.
  - rewrite Hd. change (rn "8") with 56. change (rn "9") with 57.
    destruct (Z.eqb_spec d 56); [lia|]. destruct (Z.eqb_spec d 57); [lia|].
    reflexivity.
  - intros Hin. cbv in Hin. lia.
Qed.

(** The octal escape takes up to three octal digits and stops early at
    the end of the input or before a character that is no octal digit. *)
Lemma readOctalEscape_loop_reads (ds : gostring) :
  forall (n : nat) (rs : gostring) (rest : buffer),
    forallb is_octal ds = true -> (List.length ds <= n)%nat ->
    List.length ds = n
    \/ match rest with [] => True | r :: _ => is_octal r = false end ->
    readOctalEscape_loop n rs (ds ++ rest) = (rs ++ ds, rest).
Proof.
  induction ds as [|d ds IH]; intros n rs rest Hds Hn Hstop.
  - rewrite app_nil_r. simpl. destruct n as [|n]; [reflexivity|].
    destruct Hstop as [Hz|Hr]; [discriminate|].
    destruct rest as [|r rest]; [reflexivity|]. simpl.
    unfold is_octal in Hr. rewrite Hr. reflexivity.
  - simpl in Hds. apply andb_prop in Hds. destruct Hds as [Hd Hds].
    destruct n as [|n]; [simpl in Hn; lia|].
    simpl. unfold is_octal in Hd. rewrite Hd.
    rewrite (IH n (rs ++ [d]) rest Hds).
    + rewrite <- app_assoc. reflexivity.
    + simpl in Hn. lia.
    + destruct Hstop as [Hl|Hr]; [left; simpl in Hl; lia | right; exact Hr].
Qed.

End EscapeProps.

(** The escapes of the spec: hexadecimal, octal, a letter, an invalid
    character and a short hexadecimal escape; an octal escape stops at a
    character that is no octal digit, and one above 377 is out of range. *)
Example escape_examples :
  decodeEscape (runes "x41") = (Ok (rn "A"), [])
  /\ decodeEscape (runes "101") = (Ok (rn "A"), [])
  /\ decodeEscape (runes "n") = (Ok 10, [])
  /\ decodeEscape (runes "8") = (Err (invalid_escape (rn "8")), [])
  /\ decodeEscape (runes "x4") = (Err ErrEscapeCodeUnderflow, [])
  /\ decodeEscape (runes "u00e9x") = (Ok 233, runes "x")
  /\ decodeEscape (runes "18") = (Ok 1, runes "8")
  /\ decodeEscape (runes "777")
     = (Err (strconv_NumError (runes "777") ErrRange), [])
  /\ decodeEscape (runes "xZZ")
     = (Err (strconv_NumError (runes "ZZ") ErrSyntax), []).
Proof. vm_compute. repeat split. Qed.

(** C6, at the failing input. The escaped character U+0660, the
    Arabic-Indic digit zero, is a digit for [unicode.IsDigit] and has no
    case of its own: the decoder answers with the underflow error, not
    with the invalid-escape error that it gives for 8. *)
Theorem escape_of_foreign_digit :
  decodeEscape [1632] = (Err ErrEscapeCodeUnderflow, [1632])
  /\ Unicode.IsDigit 1632 = true
  /\ existsb (Z.eqb 1632) escape_known = false
  /\ decodeEscape (runes "8") = (Err (invalid_escape (rn "8")), []).
Proof. repeat split. Qed.

(** ** The lexer: nested groups *)

Section GroupProps.

Variable IsSpace : rune -> bool.
Variable IsDigit : rune -> bool.

Lemma readSpace_loop_rest (b : buffer) (g g' : bool) :
  snd (readSpace_loop IsSpace b g) = snd (readSpace_loop IsSpace b g').
Proof.
  revert g g'. induction b as [|r b IH]; intros g g'; simpl; [reflexivity|].
  destruct (IsSpace r); [apply IH | reflexivity].
Qed.

Lemma readSpace_rest (b : buffer) :
  snd (readSpace IsSpace b) = snd (readSpace_loop IsSpace b false).
Proof.
  destruct b as [|r b]; [reflexivity|]. unfold readSpace.
  destruct (readSpace_loop IsSpace (r :: b) false). reflexivity.
Qed.

(** Whitespace before the rest is read away. *)
Lemma readSpace_skips (ws : gostring) (b : buffer) :
  forallb IsSpace ws = true ->
  snd (readSpace IsSpace (ws ++ b)) = snd (readSpace IsSpace b).
Proof.
  intros H. rewrite !readSpace_rest.
  induction ws as [|w ws IH]; [reflexivity|].
  simpl in H. apply andb_prop in H. destruct H as [Hw Hws].
  simpl. rewrite Hw.
  rewrite (readSpace_loop_rest (ws ++ b) true false). exact (IH Hws).
Qed.

Lemma readNestedCommand_skips (fuel : nat) (ws : gostring) (b : buffer) :
  forallb IsSpace ws = true ->
  readNestedCommand IsSpace IsDigit fuel (ws ++ b)
  = readNestedCommand IsSpace IsDigit fuel b.
Proof.
  intros H. unfold readNestedCommand. rewrite readSpace_skips by exact H.
  reflexivity.
Qed.

Lemma readNestedCommand_empty (fuel : nat) (b : buffer) :
  IsSpace (rn ")") = false ->
  readNestedCommand IsSpace IsDigit (S (S fuel)) (rn ")" :: b)
  = (Err ErrEmptyParens, b).
Proof.
  intros H. unfold readNestedCommand. rewrite readSpace_rest.
  simpl readSpace_loop. rewrite H. simpl snd.
  rewrite readNestedCommand_loop_S, readNextToken_S. reflexivity.
Qed.

Lemma readNestedCommand_exhausted (fuel : nat) :
  readNestedCommand IsSpace IsDigit (S (S fuel)) []
  = (Err ErrMissingCloseParen, []).
Proof. reflexivity. Qed.

End GroupProps.

(** A group in a group, with whitespace before the closing paren. *)
Example group_examples :
  lexToken (runes "(  add 1 (b c) 2 ) x")
  = (Ok (mkToken
           (Some [lit "add"; lit "1";
                  mkToken (Some [lit "b"; lit "c"]) [] false; lit "2"])
           [] false), runes " x")
  /\ lexToken (runes "((a)(b))") = (Err ErrMissingWhitespace, runes "(b))")
  /\ lexToken (runes "(a(b))")
     = (Ok (mkToken (Some [lit "a(b"]) [] false), runes ")")
  /\ lexToken (runes ")") = (Err ErrUnexpectedCloseParen, []).
Proof. vm_compute. repeat split. Qed.

(** ** Syntax lines: braces and keywords *)

(** The lines of the spec. *)
Example block_examples :
  lexLine (runes "} else {") = Ok (mkSyntaxLine true true [lit "else"] 1)
  /\ lexLine (runes "if a b {")
     = Ok (mkSyntaxLine true false [lit "if"; lit "a"; lit "b"] 1)
  /\ lexLine (runes "if a b") = Err ErrMissingOpenCurlyBrace
  /\ lexLine (runes "}") = Ok (mkSyntaxLine false true [] 1)
  /\ lexLine (dquote :: runes "if" ++ dquote :: runes " a b")
     = Ok (mkSyntaxLine false false
             [mkToken None (runes "if") false; lit "a"; lit "b"] 1).
Proof. vm_compute. repeat split. Qed.

Lemma isOpenKeyword_nonempty (tokens : list Token) :
  isOpenKeyword tokens = true -> tokens <> [].
Proof. destruct tokens; [discriminate | discriminate]. Qed.

Lemma gostring_eqb_eq (a b : gostring) : gostring_eqb a b = true <-> a = b.
Proof.
  unfold gostring_eqb. destruct (list_eq_dec Z.eq_dec a b); split; intros;
    try reflexivity; try assumption; try discriminate; contradiction.
Qed.

(** The second step of [processCurlyBraces], on the line [l1] that the
    first step leaves. *)
Lemma open_step_text_only (l1 l' : SyntaxLine) (t0 : Token) :
  BlockOpen l1 = false ->
  (if isOpenKeyword (Tokens l1) then
     if negb (gostring_eqb (Text (last (Tokens l1) t0)) (runes "{"))
     then Err ErrMissingOpenCurlyBrace
     else Ok (mkSyntaxLine true (BlockClose l1)
                (removelast (Tokens l1)) (Number_ l1))
   else Ok l1) = Ok l' ->
  BlockOpen l' = true ->
  exists t, Text t = runes "{"
            /\ isOpenKeyword (Tokens l' ++ [t]) = true
            /\ Tokens l1 = Tokens l' ++ [t].
Proof.
  intros Hno H Hopen.
  destruct (isOpenKeyword (Tokens l1)) eqn:Ek.
  - destruct (gostring_eqb (Text (last (Tokens l1) t0)) (runes "{")) eqn:Eb;
      simpl in H; [|discriminate].
    inversion H; subst l'. simpl.
    apply gostring_eqb_eq in Eb.
    pose proof (isOpenKeyword_nonempty _ Ek) as Hne.
    pose proof (app_removelast_last t0 Hne) as Happ.
    exists (last (Tokens l1) t0). split; [exact Eb|].
    rewrite <- Happ. split; [exact Ek | reflexivity].
  - inversion H; subst l'. rewrite Hno in Hopen. discriminate.
Qed.

(** What the code does guarantee when it sets [BlockOpen]: the tokens
    began with a bare keyword (after a closing brace, if any) and the last
    token had the text of an opening brace, which was stripped. The
    [Bare] flag of that last token is not looked at. *)
Lemma blockOpen_text_only (l l' : SyntaxLine) :
  BlockOpen l = false ->
  processCurlyBraces l = Ok l' -> BlockOpen l' = true ->
  exists t, Text t = runes "{"
            /\ isOpenKeyword (Tokens l' ++ [t]) = true
            /\ (Tokens l = Tokens l' ++ [t]
                \/ exists c, Tokens l = c :: Tokens l' ++ [t]).
Proof.
  intros Hno H Hopen. unfold processCurlyBraces in H.
  destruct (Tokens l) as [|t0 rest] eqn:Et; [discriminate|].
  destruct (gostring_eqb (Text t0) (runes "}") && Bare t0).
  - destruct (open_step_text_only
                (mkSyntaxLine (BlockOpen l) true rest (Number_ l)) l' t0
                Hno H Hopen) as [t [Ht [Hk Htoks]]].
    exists t. split; [exact Ht|]. split; [exact Hk|].
    right. exists t0. simpl in Htoks. rewrite Htoks. reflexivity.
  - destruct (open_step_text_only l l' t0 Hno H Hopen)
      as [t [Ht [Hk Htoks]]].
    exists t. split; [exact Ht|]. split; [exact Hk|].
    left. rewrite <- Et. exact Htoks.
Qed.

(** C3, at the failing input. On the line with the tokens if, a and a
    quoted opening brace, the last token is not bare, and yet the line
    parses with [BlockOpen] set and the quoted brace stripped, where the
    missing-open-curly-brace error is due. *)
Theorem quoted_brace_opens_block :
  lexLine (runes "if a " ++ dquote :: runes "{" ++ [dquote])
  = Ok (mkSyntaxLine true false [lit "if"; lit "a"] 1)
  /\ lexToken (dquote :: runes "{" ++ [dquote])
     = (Ok (mkToken None (runes "{") false), [])
  /\ lexLine (runes "if a \x7b")
     = Ok (mkSyntaxLine true false [lit "if"; lit "a"] 1)
  /\ lexLine (runes "} else {") = Ok (mkSyntaxLine true true [lit "else"] 1).
Proof. vm_compute. repeat split. Qed.

(** ** The lexer returns: the fuel of [parseLine] is never exhausted *)

Section Termination.

Variable IsSpace : rune -> bool.
Variable IsDigit : rune -> bool.

Local Abbreviation len_le b' b := (List.length b' <= List.length b)%nat.

Lemma readSpace_loop_len (b : buffer) (g : bool) :
  len_le (snd (readSpace_loop IsSpace b g)) b.
Proof.
  revert g. induction b as [|r b IH]; intros g; simpl; [lia|].
  destruct (IsSpace r); simpl; [|lia]. specialize (IH true). lia.
Qed.

Lemma readSpace_len (b : buffer) : len_le (snd (readSpace IsSpace b)) b.
Proof. rewrite readSpace_rest. apply readSpace_loop_len. Qed.

(** After a token, the loops go on only when [readSpace] answers true; on
    a buffer that is not empty it then has read a rune. *)
Lemma readSpace_true_shorter (r : rune) (b b' : buffer) :
  readSpace IsSpace (r :: b) = (Ok true, b') -> len_le b' b.
Proof.
  unfold readSpace. simpl. destruct (IsSpace r).
  - pose proof (readSpace_loop_len b true) as Hl.
    destruct (readSpace_loop IsSpace b true) as [g b0]. simpl in Hl.
    intros H. inversion H; subst. exact Hl.
  - intros H. discriminate.
Qed.

Lemma ParseUint_loop_result (s0 s : gostring) (base maxVal : Z) :
  forall n, is_result (ParseUint_loop s0 s base maxVal n) = true.
Proof.
  induction s as [|c s IH]; intros n; simpl; [reflexivity|].
  destruct (digit_value c) as [d|]; [|reflexivity].
  destruct (base <=? d); [reflexivity|].
  destruct (maxUint64 / base + 1 <=? n); [reflexivity|].
  destruct ((maxUint64 <? n * base + d) || (maxVal <? n * base + d));
    [reflexivity | apply IH].
Qed.

Lemma ParseUint_result (s : gostring) (base bitSize : Z) :
  is_result (ParseUint s base bitSize) = true.
Proof.
  destruct s; [reflexivity|]. apply ParseUint_loop_result.
Qed.

Lemma readOctalEscape_loop_len (i : nat) :
  forall rs b, len_le (snd (readOctalEscape_loop i rs b)) b.
Proof.
  induction i as [|i IH]; intros rs b; simpl; [lia|].
  destruct b as [|r b]; simpl; [lia|].
  destruct ((rn "0" <=? r) && (r <? rn "8")); simpl; [|lia].
  specialize (IH (rs ++ [r]) b). lia.
Qed.

Lemma readOctalEscape_props (b : buffer) :
  is_result (fst (readOctalEscape b)) = true
  /\ len_le (snd (readOctalEscape b)) b.
Proof.
  unfold readOctalEscape.
  pose proof (readOctalEscape_loop_len 3 [] b) as Hl.
  destruct (readOctalEscape_loop 3 [] b) as [rs b']. simpl in Hl.
  destruct rs as [|r rs]; [split; [reflexivity | exact Hl]|].
  pose proof (ParseUint_result (r :: rs) 8 8) as Hp.
  destruct (ParseUint (r :: rs) 8 8); simpl in *; try discriminate;
    split; try reflexivity; exact Hl.
Qed.

Lemma readNumericEscape_loop_props (i : nat) :
  forall rs b,
    is_result (fst (readNumericEscape_loop i rs b)) = true
    /\ len_le (snd (readNumericEscape_loop i rs b)) b.
Proof.
  induction i as [|i IH]; intros rs b; simpl; [split; [reflexivity | lia]|].
  destruct b as [|r b]; simpl; [split; [reflexivity | lia]|].
  destruct (IH (rs ++ [r]) b) as [H1 H2]. split; [exact H1 | lia].
Qed.

Lemma readNumericEscape_props (n : nat) (b : buffer) :
  is_result (fst (readNumericEscape n b)) = true
  /\ len_le (snd (readNumericEscape n b)) b.
Proof.
  unfold readNumericEscape.
  destruct (readNumericEscape_loop_props n [] b) as [Hr Hl].
  destruct (readNumericEscape_loop n [] b) as [[rs|e|m|] b']; simpl in *;
    try discriminate; try (split; [reflexivity | exact Hl]).
  pose proof (ParseUint_result rs 16 (Z.of_nat n * 4)) as Hp.
  destruct (ParseUint rs 16 (Z.of_nat n * 4)); simpl in *; try discriminate;
    split; try reflexivity; exact Hl.
Qed.

Lemma readEscapeSequence_props (b : buffer) :
  is_result (fst (readEscapeSequence IsDigit b)) = true
  /\ len_le (snd (readEscapeSequence IsDigit b)) b.
Proof.
  unfold readEscapeSequence.
  destruct b as [|r b]; [split; [reflexivity | simpl; lia]|].
  repeat match goal with
         | |- context [if ?c then _ else _] => destruct c
         end;
    try (split; [reflexivity | simpl; lia]);
    try (destruct (readNumericEscape_props 2 b); simpl; split;
         [assumption | lia]);
    try (destruct (readNumericEscape_props 4 b); simpl; split;
         [assumption | lia]);
    try (destruct (readNumericEscape_props 8 b); simpl; split;
         [assumption | lia]).
  apply readOctalEscape_props.
Qed.

Lemma readQuotedString_loop_props (fuel : nat) (quote : rune) :
  forall str b,
    len_le (snd (readQuotedString_loop IsDigit fuel quote str b)) b
    /\ ((List.length b < fuel)%nat ->
        is_result (fst (readQuotedString_loop IsDigit fuel quote str b))
        = true).
Proof.
  induction fuel as [|fuel IH]; intros str b; simpl.
  - split; [lia | intros; lia].
  - destruct b as [|r b]; [split; [simpl; lia | reflexivity]|].
    destruct (r =? quote); [split; [simpl; lia | reflexivity]|].
    destruct (r =? rn "\").
    + destruct (readEscapeSequence_props b) as [Hr Hl].
      destruct (readEscapeSequence IsDigit b) as [[seq|e|m|] b'']; simpl in *;
        try discriminate; try (split; [lia | reflexivity]).
      destruct (IH (WriteRune str seq) b'') as [H1 H2].
      split; [lia | intros; apply H2; lia].
    + destruct (IH (WriteRune str r) b) as [H1 H2].
      split; [simpl; lia | intros; apply H2; simpl in *; lia].
Qed.

(** [readBareString] stops where it started only before whitespace, a
    closing paren or the end. *)
Lemma readBareString_loop_props (fuel : nat) :
  forall str bare n b,
    let res := readBareString_loop IsSpace IsDigit fuel str bare n b in
    len_le (snd res) b
    /\ ((List.length b < fuel)%nat -> is_result (fst res) = true)
    /\ (forall x, fst res = Ok x ->
          (List.length (snd res) < List.length b)%nat
          \/ match b with
             | [] => True
             | r :: _ => IsSpace r || (r =? rn ")") = true
             end).
Proof.
  induction fuel as [|fuel IH]; intros str bare n b; simpl.
  - split; [lia|]. split; [intros; lia | intros; discriminate].
  - destruct b as [|r b]; [repeat split; simpl; auto|].
    destruct (IsSpace r || (r =? rn ")")) eqn:Estop;
      [repeat split; simpl; auto|].
    destruct (r =? rn "\").
    + destruct (readEscapeSequence_props b) as [Hr Hl].
      destruct (readEscapeSequence IsDigit b) as [[seq|e|m|] b'']; simpl in *;
        try discriminate;
        try (split; [lia|]; split; [reflexivity | intros; discriminate]).
      destruct (IH (WriteRune str seq) false (S n) b'') as [H1 [H2 _]].
      split; [lia|]. split; [intros; apply H2; lia|].
      intros x _. left. lia.
    + destruct (IH (WriteRune str r) bare n b) as [H1 [H2 _]].
      split; [simpl; lia|]. split; [intros; apply H2; simpl in *; lia|].
      intros x _. left. simpl. lia.
Qed.

Lemma readBareString_props (fuel : nat) (b : buffer) :
  let res := readBareString IsSpace IsDigit fuel b in
  len_le (snd res) b
  /\ ((List.length b < fuel)%nat -> is_result (fst res) = true)
  /\ (forall t, fst res = Ok t ->
        (List.length (snd res) < List.length b)%nat
        \/ match b with
           | [] => True
           | r :: _ => IsSpace r || (r =? rn ")") = true
           end).
Proof.
  unfold readBareString, readBareString_counted.
  destruct (readBareString_loop_props fuel [] true O b) as [H1 [H2 H3]].
  destruct (readBareString_loop IsSpace IsDigit fuel [] true 0 b)
    as [[[t n]|e|m|] b']; simpl in *;
    (split; [exact H1|]); (split; [exact H2|]); intros t' Ht;
    try discriminate.
  exact (H3 (t, n) eq_refl).
Qed.

Lemma readNestedCommand_finish_props (tokens : list Token) (b : buffer) :
  is_result (fst (readNestedCommand_finish tokens b)) = true
  /\ snd (readNestedCommand_finish tokens b) = b.
Proof. destruct tokens; split; reflexivity. Qed.

(** No call leaves more in the buffer than it found. *)
Lemma lexer_len (fuel : nat) :
  (forall b, len_le (snd (readNextToken IsSpace IsDigit fuel b)) b)
  /\ (forall tokens b,
        len_le (snd (readNestedCommand_loop IsSpace IsDigit fuel tokens b)) b).
Proof.
  induction fuel as [|fuel [IHt IHl]]; split.
  - intros b. simpl. lia.
  - intros tokens b. simpl. lia.
  - intros b. destruct b as [|r b]; [simpl; lia|].
    rewrite readNextToken_S.
    destruct (r =? dquote).
    { destruct (readQuotedString_loop_props fuel dquote [] b) as [Hl _].
      unfold readQuotedString.
      destruct (readQuotedString_loop IsDigit fuel dquote [] b)
        as [[str|e|m|] b'']; simpl in *; lia. }
    destruct (r =? rn "'").
    { destruct (readQuotedString_loop_props fuel (rn "'") [] b) as [Hl _].
      unfold readQuotedString.
      destruct (readQuotedString_loop IsDigit fuel (rn "'") [] b)
        as [[str|e|m|] b'']; simpl in *; lia. }
    destruct (r =? rn "(").
    { unfold readNestedCommand.
      pose proof (IHl [] (snd (readSpace IsSpace b))) as Hl.
      pose proof (readSpace_len b) as Hs.
      destruct (readNestedCommand_loop IsSpace IsDigit fuel []
                  (snd (readSpace IsSpace b))) as [[ts|e|m|] b''];
        simpl in *; lia. }
    destruct (r =? rn ")"); [simpl; lia|].
    apply (readBareString_props fuel (r :: b)).
  - intros tokens b. rewrite readNestedCommand_loop_S.
    pose proof (IHt b) as Ht.
    destruct (readNextToken IsSpace IsDigit fuel b) as [[t|e|m|] b1];
      simpl in Ht; try (simpl; lia).
    + assert (Hgo :
        len_le (snd match readSpace IsSpace b1 with
                    | (Ok true, b3) =>
                        readNestedCommand_loop IsSpace IsDigit fuel
                          (tokens ++ [t]) b3
                    | (Ok false, b3) => (Err ErrMissingWhitespace, b3)
                    | (o, b3) => (fail_as (list Token) o, b3)
                    end) b).
      { pose proof (readSpace_len b1) as Hs.
        destruct (readSpace IsSpace b1) as [[[|]|e|m|] b3]; simpl in *;
          try lia.
        pose proof (IHl (tokens ++ [t]) b3). lia. }
      destruct b1 as [|r1 b1']; [exact Hgo|].
      destruct (r1 =? rn ")"); [|exact Hgo].
      destruct (readNestedCommand_finish_props (tokens ++ [t]) b1')
        as [_ ->]. simpl in Ht. lia.
    + destruct e; simpl; try lia.
      destruct (readNestedCommand_finish_props tokens b1) as [_ ->]. lia.
Qed.

(** A token that was read took at least one rune, or stands before
    whitespace. *)
Lemma readNextToken_progress (fuel : nat) (b b' : buffer) (t : Token) :
  readNextToken IsSpace IsDigit fuel b = (Ok t, b') ->
  (List.length b' < List.length b)%nat
  \/ exists r rest, b = r :: rest /\ IsSpace r = true.
Proof.
  intros H. destruct fuel as [|fuel]; [discriminate|].
  destruct b as [|r b]; [discriminate|].
  rewrite readNextToken_S in H.
  destruct (r =? dquote).
  { destruct (readQuotedString_loop_props fuel dquote [] b) as [Hl _].
    unfold readQuotedString in H.
    destruct (readQuotedString_loop IsDigit fuel dquote [] b)
      as [[str|e|m|] b'']; inversion H; subst. left. simpl in *. lia. }
  destruct (r =? rn "'").
  { destruct (readQuotedString_loop_props fuel (rn "'") [] b) as [Hl _].
    unfold readQuotedString in H.
    destruct (readQuotedString_loop IsDigit fuel (rn "'") [] b)
      as [[str|e|m|] b'']; inversion H; subst. left. simpl in *. lia. }
  destruct (r =? rn "(").
  { unfold readNestedCommand in H.
    pose proof (proj2 (lexer_len fuel) [] (snd (readSpace IsSpace b))) as Hl.
    pose proof (readSpace_len b) as Hs.
    destruct (readNestedCommand_loop IsSpace IsDigit fuel []
                (snd (readSpace IsSpace b))) as [[ts|e|m|] b''];
      inversion H; subst. left. simpl in *. lia. }
  destruct (r =? rn ")") eqn:Eparen; [discriminate|].
  destruct (readBareString_props fuel (r :: b)) as [_ [_ Hp]].
  rewrite H in Hp. destruct (Hp t eq_refl) as [Hlt|Hstop].
  - left. exact Hlt.
  - right. exists r, b. split; [reflexivity|].
    rewrite Eparen, orb_false_r in Hstop. exact Hstop.
Qed.

(** With twice the length of the buffer and two more, the fuel is
    enough. *)
Lemma lexer_returns (fuel : nat) :
  (forall b, (2 * List.length b + 2 <= fuel)%nat ->
     is_result (fst (readNextToken IsSpace IsDigit fuel b)) = true)
  /\ (forall tokens b, (2 * List.length b + 3 <= fuel)%nat ->
        is_result (fst (readNestedCommand_loop IsSpace IsDigit fuel tokens b))
        = true).
Proof.
  induction fuel as [|fuel [IHt IHl]]; split.
  - intros b H. lia.
  - intros tokens b H. lia.
  - intros b Hf. destruct b as [|r b]; [reflexivity|].
    rewrite readNextToken_S. simpl in Hf.
    destruct (r =? dquote).
    { destruct (readQuotedString_loop_props fuel dquote [] b) as [_ Hr].
      unfold readQuotedString. specialize (Hr ltac:(lia)).
      destruct (readQuotedString_loop IsDigit fuel dquote [] b)
        as [[str|e|m|] b'']; simpl in *; congruence. }
    destruct (r =? rn "'").
    { destruct (readQuotedString_loop_props fuel (rn "'") [] b) as [_ Hr].
      unfold readQuotedString. specialize (Hr ltac:(lia)).
      destruct (readQuotedString_loop IsDigit fuel (rn "'") [] b)
        as [[str|e|m|] b'']; simpl in *; congruence. }
    destruct (r =? rn "(").
    { unfold readNestedCommand.
      pose proof (readSpace_len b) as Hs.
      pose proof (IHl [] (snd (readSpace IsSpace b)) ltac:(lia)) as Hr.
      destruct (readNestedCommand_loop IsSpace IsDigit fuel []
                  (snd (readSpace IsSpace b))) as [[ts|e|m|] b''];
        simpl in *; congruence. }
    destruct (r =? rn ")"); [reflexivity|].
    destruct (readBareString_props fuel (r :: b)) as [_ [Hr _]].
    apply Hr. simpl. lia.
  - intros tokens b Hf. rewrite readNestedCommand_loop_S.
    pose proof (IHt b ltac:(lia)) as Hr.
    destruct (readNextToken IsSpace IsDigit fuel b) as [[t|e|m|] b1] eqn:Et;
      simpl in Hr; try discriminate.
    + assert (Hgo : forall r1 b1', b1 = r1 :: b1' ->
        is_result (fst match readSpace IsSpace b1 with
                       | (Ok true, b3) =>
                           readNestedCommand_loop IsSpace IsDigit fuel
                             (tokens ++ [t]) b3
                       | (Ok false, b3) => (Err ErrMissingWhitespace, b3)
                       | (o, b3) => (fail_as (list Token) o, b3)
                       end) = true).
      { intros r1 b1' ->.
        destruct (readSpace_ok IsSpace (r1 :: b1')) as [g [b3 Hs]].
        rewrite Hs. destruct g; [|reflexivity].
        apply IHl. apply readSpace_true_shorter in Hs.
        pose proof (proj1 (lexer_len fuel) b) as Hl. rewrite Et in Hl.
        simpl in Hl. lia. }
      destruct b1 as [|r1 b1'].
      * simpl. destruct fuel as [|fuel']; [lia|].
        rewrite readNestedCommand_loop_S.
        destruct fuel' as [|fuel'']; [lia|]. reflexivity.
      * destruct (r1 =? rn ")"); [|exact (Hgo r1 b1' eq_refl)].
        apply readNestedCommand_finish_props.
    + destruct e; try reflexivity. apply readNestedCommand_finish_props.
Qed.

Lemma parseLine_loop_returns (fuel : nat) :
  forall tokens b, (2 * List.length b + 3 <= fuel)%nat ->
    is_result (parseLine_loop IsSpace IsDigit fuel tokens b) = true.
Proof.
  induction fuel as [|fuel IH]; intros tokens b Hf; [lia|].
  destruct b as [|r b]; [reflexivity|].
  cbn [parseLine_loop].
  pose proof (proj1 (lexer_returns fuel) (r :: b) ltac:(lia)) as Hr.
  destruct (readNextToken IsSpace IsDigit fuel (r :: b))
    as [[t|e|m|] b1] eqn:Et; simpl in Hr; try discriminate;
    [|reflexivity].
  pose proof (proj1 (lexer_len fuel) (r :: b)) as Hl. rewrite Et in Hl.
  simpl in Hl.
  destruct (readSpace_ok IsSpace b1) as [g [b2 Hs]]. rewrite Hs.
  destruct g; [|reflexivity].
  apply IH.
  destruct b1 as [|r1 b1'].
  - inversion Hs; subst. simpl in *. lia.
  - apply readSpace_true_shorter in Hs. simpl in *. lia.
Qed.

Lemma parseLine_loop_tokens (fuel : nat) :
  forall tokens b ts,
    parseLine_loop IsSpace IsDigit fuel tokens b = Ok ts ->
    b <> [] \/ tokens <> [] -> ts <> [].
Proof.
  induction fuel as [|fuel IH]; intros tokens b ts H Hne; [discriminate|].
  destruct b as [|r b].
  - inversion H; subst. destruct Hne as [Hne|Hne]; [contradiction|exact Hne].
  - cbn [parseLine_loop] in H.
    destruct (readNextToken IsSpace IsDigit fuel (r :: b))
      as [[t|e|m|] b1]; try discriminate.
    destruct (readSpace IsSpace b1) as [[[|]|e|m|] b2]; try discriminate.
    apply (IH _ _ _ H). right. destruct tokens; discriminate.
Qed.

Lemma processCurlyBraces_returns (l : SyntaxLine) :
  Tokens l <> [] -> is_result (processCurlyBraces l) = true.
Proof.
  intros Hne. unfold processCurlyBraces.
  destruct (Tokens l) as [|t0 rest]; [contradiction|].
  destruct (isOpenKeyword _); [|reflexivity].
  destruct (negb _); reflexivity.
Qed.

(** On a line that is not empty (the caller skips empty lines),
    [parseLine] returns a syntax line or an error: it does not panic and
    its loops end within the fuel given to them. *)
Theorem parseLine_terminates (text : gostring) (num : Z) :
  text <> [] -> is_result (parseLine IsSpace IsDigit text num) = true.
Proof.
  intros Hne. unfold parseLine.
  pose proof (parseLine_loop_returns (fuel_for text) [] text) as Hr.
  unfold fuel_for in *. specialize (Hr ltac:(lia)).
  destruct (parseLine_loop IsSpace IsDigit (2 * List.length text + 4) [] text)
    as [ts|e|m|] eqn:E; simpl in Hr; try discriminate; [|reflexivity].
  apply processCurlyBraces_returns. simpl.
  apply (parseLine_loop_tokens _ _ _ _ E). left. exact Hne.
Qed.

End Termination.

(** With Go's tables, reading one token off a line always returns. *)
Lemma lexToken_returns (text : gostring) :
  is_result (fst (lexToken text)) = true.
Proof.
  unfold lexToken, fuel_for.
  apply (proj1 (lexer_returns Unicode.IsSpace Unicode.IsDigit _)). lia.
Qed.

(* ================================================================== *)
(** * Further properties                                               *)
(* ================================================================== *)

(** ** std_string.go *)

Lemma byte_of_int_of_byte (c : ascii) : byte_of_int (int_of_byte c) = c.
Proof.
  unfold byte_of_int, int_of_byte.
  pose proof (nat_ascii_bounded c) as Hb.
  rewrite Z.mod_small by lia.
  rewrite Nat2Z.id. apply ascii_nat_embedding.
Qed.

Lemma int_of_byte_of_int (x : Z) : int_of_byte (byte_of_int x) = x mod 256.
Proof.
  unfold byte_of_int, int_of_byte.
  pose proof (Z.mod_pos_bound x 256 ltac:(lia)) as Hb.
  rewrite nat_ascii_embedding by lia. lia.
Qed.

(** X9. Chr undoes Ord on every string, and Ord after Chr gives each
    number reduced to a byte (modulo 256); Ord returns one number for each
    byte. *)
Theorem Chr_Ord_round_trip (s : string) (l : list Z) :
  Chr (Ord s) = s
  /\ Ord (Chr l) = map (fun x => x mod 256) l
  /\ List.length (Ord s) = String.length s.
Proof.
  unfold Chr, Ord. split; [|split].
  - rewrite map_map.
    rewrite (map_ext _ (fun c => c) byte_of_int_of_byte), map_id.
    apply string_of_list_ascii_of_string.
  - rewrite list_ascii_of_string_of_list_ascii, map_map.
    apply map_ext. exact int_of_byte_of_int.
  - rewrite length_map. induction s as [|c s IH]; simpl; congruence.
Qed.

Lemma Replace_single (a : ascii) (new s : string) :
  strings_Replace s (String a EmptyString) new = replace_byte a new s.
Proof.
  unfold strings_Replace. induction s as [|c s IH]; [reflexivity|].
  cbn [Replace_from replace_byte String.prefix String.length Nat.sub].
  destruct (ascii_dec a c) as [->|Hne].
  - rewrite Ascii.eqb_refl, IH. destruct s; reflexivity.
  - destruct (Ascii.eqb_spec c a) as [->|_]; [contradiction|].
    rewrite IH. reflexivity.
Qed.

Lemma free_of_app (c : ascii) (s t : string) :
  free_of c (s ++ t) = free_of c s && free_of c t.
Proof.
  induction s as [|a s IH]; simpl; [reflexivity|].
  rewrite IH, andb_assoc. reflexivity.
Qed.

Lemma replace_byte_free (a : ascii) (new s : string) :
  free_of a new = true -> free_of a (replace_byte a new s) = true.
Proof.
  intros Hn. induction s as [|c s IH]; simpl; [reflexivity|].
  destruct (Ascii.eqb_spec c a) as [->|Hne].
  - rewrite free_of_app, Hn, IH. reflexivity.
  - simpl. rewrite IH.
    destruct (Ascii.eqb_spec c a); [contradiction | reflexivity].
Qed.

Lemma replace_byte_absent (a : ascii) (new s : string) :
  free_of a s = true -> replace_byte a new s = s.
Proof.
  induction s as [|c s IH]; simpl; [reflexivity|].
  intros H. apply andb_prop in H. destruct H as [Hc Hs].
  destruct (Ascii.eqb c a); [discriminate|]. rewrite IH by exact Hs.
  reflexivity.
Qed.

Lemma Escape_bytes (str : string) :
  Escape str = replace_byte "010" "\n" (replace_byte "\" "\\" str).
Proof.
  unfold Escape, newline. rewrite !Replace_single. reflexivity.
Qed.

(** X10. The result of Escape holds no newline byte, whatever the
    argument: an escaped string is one element of a newline-separated
    list. *)
Theorem Escape_no_newline (str : string) :
  free_of "010" (Escape str) = true.
Proof. rewrite Escape_bytes. apply replace_byte_free. reflexivity. Qed.

Lemma Replace_pair_absent (s : string) :
  free_of "\" s = true -> strings_Replace s "\\" "\" = s.
Proof.
  unfold strings_Replace. induction s as [|c s IH]; [reflexivity|].
  simpl free_of. intros H. apply andb_prop in H. destruct H as [Hc Hs].
  cbn [Replace_from String.prefix].
  destruct (ascii_dec "\" c) as [<-|_]; [discriminate|].
  rewrite IH by exact Hs. reflexivity.
Qed.

Lemma prefix_nil (s : string) : String.prefix EmptyString s = true.
Proof. destruct s; reflexivity. Qed.

Lemma Unescape_newlines (s : string) :
  free_of "\" s = true ->
  strings_Replace (replace_byte "010" "\n" s) "\n" newline = s.
Proof.
  unfold strings_Replace. induction s as [|c s IH]; [reflexivity|].
  simpl free_of. intros H. apply andb_prop in H. destruct H as [Hc Hs].
  specialize (IH Hs). cbn [replace_byte].
  destruct (Ascii.eqb_spec c "010") as [->|Hnl].
  - cbn. rewrite prefix_nil, IH. reflexivity.
  - cbn [Replace_from String.prefix].
    destruct (ascii_dec "\" c) as [<-|_]; [discriminate|].
    rewrite IH. reflexivity.
Qed.

(** X11. Unescape undoes Escape on every string with no backslash. With
    a backslash it need not: Unescape replaces backslash-n before it
    replaces the doubled backslash, so the two bytes backslash, n come
    back as backslash, newline. *)
Theorem Unescape_Escape (s : string) :
  free_of "\" s = true ->
  Unescape (Escape s) = s
  /\ Unescape (Escape "\n") = String "\" newline.
Proof.
  intros H. split; [|reflexivity].
  rewrite Escape_bytes. rewrite (replace_byte_absent "\" "\\" s H).
  unfold Unescape. rewrite (Unescape_newlines s H).
  apply Replace_pair_absent. exact H.
Qed.

Lemma Unescape_Escape_witness :
  free_of "\" (String "a" (String "010" "b")) = true
  /\ Unescape (Escape (String "a" (String "010" "b")))
     = String "a" (String "010" "b")
  /\ Escape (String "a" (String "010" "b")) = "a\nb"%string.
Proof.
  split; [reflexivity|]. split; [|reflexivity].
  exact (proj1 (Unescape_Escape (String "a" (String "010" "b")) eq_refl)).
Defined.

Lemma zeros_shift (n : nat) (str : string) :
  (zeros n ++ String "0" str)%string = String "0" (zeros n ++ str).
Proof. induction n as [|n IH]; simpl; [reflexivity|]. rewrite IH. reflexivity. Qed.

Lemma PadZero_loop_zeros (length : Z) (fuel : nat) :
  forall str, Z.to_nat (length - len str) = fuel ->
    PadZero_loop fuel length str = (zeros fuel ++ str)%string.
Proof.
  induction fuel as [|fuel IH]; intros str Hf; [reflexivity|].
  cbn [PadZero_loop].
  destruct (Z.ltb_spec (len str) length) as [Hlt|Hge]; [|lia].
  rewrite IH.
  - rewrite zeros_shift. reflexivity.
  - unfold len in *. cbn [String.length]. lia.
Qed.

Lemma length_zeros (n : nat) : String.length (zeros n) = n.
Proof. induction n; simpl; congruence. Qed.

Lemma length_append (s t : string) :
  String.length (s ++ t) = (String.length s + String.length t)%nat.
Proof. induction s as [|c s IH]; simpl; [reflexivity|]. rewrite IH. reflexivity. Qed.

(** X12. PadZero puts [length - len(str)] zero digits before the string
    and nothing else: the result has the larger of the two lengths, and a
    string that is long enough, or a length that is not positive, gives
    the string back. *)
Theorem PadZero_pads (length : Z) (str : string) :
  PadZero length str
  = (zeros (Z.to_nat (length - len str)) ++ str)%string
  /\ len (PadZero length str) = Z.max (len str) length.
Proof.
  assert (E : PadZero length str
              = (zeros (Z.to_nat (length - len str)) ++ str)%string)
    by (apply PadZero_loop_zeros; reflexivity).
  split; [exact E|]. rewrite E. unfold len.
  rewrite length_append, length_zeros. unfold len. lia.
Qed.

(** ** std_math.go *)

(** X13. Sqrt answers with the imaginary-number error exactly for the
    negative finite numbers and minus infinity. The negative zero and a
    NaN are not below zero: they go to math.Sqrt and come back as they
    are. *)
Theorem Sqrt_domain (f : float64) :
  Sqrt f
  = match f with
    | S754_finite true _ _ | S754_infinity true =>
        Err (errors_New (runes "cannot represent imaginary numbers"))
    | _ => Ok (f64_sqrt f)
    end
  /\ Sqrt (S754_zero true) = Ok (S754_zero true)
  /\ Sqrt S754_nan = Ok S754_nan
  /\ Sqrt (float64_of_Z 9) = Ok (float64_of_Z 3).
Proof.
  split; [|repeat split].
  destruct f as [s|s| |s m e]; try destruct s; reflexivity.
Qed.

Lemma fold_MultiplyNumbers_integers (l : list Z) :
  forall acc, fold_left MultiplyNumbers (map NumInt l) (NumInt acc)
              = NumInt (fold_left Z.mul l acc).
Proof.
  induction l as [|x l IH]; intros acc; [reflexivity|].
  cbn [map fold_left]. apply IH.
Qed.

(** X14. Mul over integer numbers is the exact integer product, of any
    size; the product of no number is 1. A float among the factors makes
    the result a float. *)
Theorem Mul_integers (l : list Z) (f : float64) :
  Mul (map NumInt l) = NumInt (fold_left Z.mul l 1)
  /\ Mul [] = NumInt 1
  /\ is_float (Mul (map NumInt l ++ [NumFloat f])) = true.
Proof.
  unfold Mul, NewNumberInt. split; [|split].
  - apply fold_MultiplyNumbers_integers.
  - reflexivity.
  - rewrite fold_left_app, fold_MultiplyNumbers_integers. reflexivity.
Qed.

(** X15. Factorial on an integer [i]: below zero it asks Gamma; from 0 to
    65535 it returns the exact integer factorial of [i - 1] (1 for 0),
    being the product of 2, ..., [i - 1]; from 65536 on it is the
    argument-too-big error. *)
Theorem Factorial_cases (math_Gamma : float64 -> float64) (i : Z) :
  Factorial math_Gamma (NewNumberInt i)
  = if i <? 0 then
      let ans := math_Gamma (float64_of_Z i) in
      if math_IsNaN ans || math_IsInf ans
      then Err (errors_New (runes "cannot compute gamma result"))
      else Ok (NewNumberFloat ans)
    else if i <? 65536 then Ok (NewNumberBig (factorial_Z (i - 1)))
    else Err (errors_New (runes "argument too big")).
Proof.
  destruct (Z.ltb_spec i 0) as [Hneg|Hnn].
  - rewrite Factorial_gamma_path; [reflexivity|].
    right. unfold NewNumberInt. rewrite CompareNumbers_integers.
    destruct (Z.compare_spec i 0); lia.
  - destruct (Z.ltb_spec i 65536) as [Hlt|Hge].
    + apply Factorial_integer_path. lia.
    + apply Factorial_too_big. lia.
Qed.

(** ** syntax.go: what the lexer reads *)

Section Reading.

Variable IsSpace : rune -> bool.
Variable IsDigit : rune -> bool.

Lemma plain_rune_spec (r : rune) :
  plain_rune IsSpace r = true ->
  utf8_ValidRune r = true /\ IsSpace r || (r =? rn ")") = false
  /\ (r =? rn "\") = false.
Proof.
  unfold plain_rune. intros H.
  apply andb_prop in H. destruct H as [H Hb].
  apply andb_prop in H. destruct H as [H Hp].
  apply andb_prop in H. destruct H as [Hv Hs].
  apply negb_true_iff in Hb, Hp, Hs. rewrite Hs, Hp. auto.
Qed.

Lemma readBareString_loop_plain (s : gostring) :
  forall fuel str bare n rest,
    forallb (plain_rune IsSpace) s = true ->
    (List.length s < fuel)%nat -> at_stop IsSpace rest ->
    readBareString_loop IsSpace IsDigit fuel str bare n (s ++ rest)
    = (Ok (mkToken None (str ++ s) bare, n), rest).
Proof.
  induction s as [|a s IH]; intros fuel str bare n rest Hs Hf Hrest;
    (destruct fuel as [|fuel]; [simpl in Hf; lia|]).
  - rewrite app_nil_r. simpl. destruct rest as [|r rest]; [reflexivity|].
    simpl in Hrest. rewrite Hrest. reflexivity.
  - simpl in Hs. apply andb_prop in Hs. destruct Hs as [Ha Hs].
    destruct (plain_rune_spec a Ha) as [Hv [Hstop Hb]].
    cbn [app readBareString_loop]. rewrite Hstop, Hb.
    rewrite (IH fuel (WriteRune str a) bare n rest Hs); [|simpl in Hf; lia
                                                         |exact Hrest].
    unfold WriteRune. rewrite Hv, <- app_assoc. reflexivity.
Qed.

Lemma plain_word_spec (w : gostring) :
  plain_word IsSpace w = true ->
  forallb (plain_rune IsSpace) w = true
  /\ exists r w', w = r :: w' /\ (r =? dquote) = false
                  /\ (r =? rn "'") = false /\ (r =? rn "(") = false
                  /\ (r =? rn ")") = false /\ IsSpace r = false.
Proof.
  unfold plain_word. intros H. apply andb_prop in H. destruct H as [Hall H].
  split; [exact Hall|]. destruct w as [|r w']; [discriminate|].
  exists r, w'. split; [reflexivity|].
  apply andb_prop in H. destruct H as [H Hp].
  apply andb_prop in H. destruct H as [Hd Hq].
  apply negb_true_iff in Hd, Hq, Hp.
  simpl in Hall. apply andb_prop in Hall. destruct Hall as [Hr _].
  destruct (plain_rune_spec r Hr) as [_ [Hstop _]].
  apply orb_false_elim in Hstop. destruct Hstop as [Hsp Hcp]. auto.
Qed.

Lemma readNextToken_plain_word (w : gostring) (rest : buffer) (fuel : nat) :
  plain_word IsSpace w = true -> at_stop IsSpace rest ->
  (List.length w < fuel)%nat ->
  readNextToken IsSpace IsDigit (S fuel) (w ++ rest)
  = (Ok (bare_token w), rest).
Proof.
  intros Hw Hrest Hf.
  destruct (plain_word_spec w Hw) as [Hall [r [w' [-> [Hd [Hq [Ho [Hc _]]]]]]]].
  cbn [app]. rewrite readNextToken_S, Hd, Hq, Ho, Hc.
  unfold readBareString, readBareString_counted.
  change (r :: w' ++ rest) with ((r :: w') ++ rest).
  rewrite (readBareString_loop_plain (r :: w') fuel [] true 0 rest Hall Hf
             Hrest).
  reflexivity.
Qed.

(** X4. A word of plain runes (no whitespace, closing paren or backslash,
    not starting with a quote or an opening paren) that ends at the end
    of the buffer, before whitespace or before a closing paren is read as
    one bare literal with exactly that text, and the buffer is left at
    the end of the word. *)
Theorem bare_word_read (w : gostring) (rest : buffer) (fuel : nat) :
  plain_word IsSpace w = true -> at_stop IsSpace rest ->
  (List.length w < fuel)%nat ->
  readNextToken IsSpace IsDigit (S fuel) (w ++ rest)
  = (Ok (mkToken None w true), rest).
Proof. exact (readNextToken_plain_word w rest fuel). Qed.

Lemma quotable_rune_spec (q r : rune) :
  quotable_rune q r = true ->
  utf8_ValidRune r = true /\ (r =? q) = false /\ (r =? rn "\") = false.
Proof.
  unfold quotable_rune. intros H.
  apply andb_prop in H. destruct H as [H Hb].
  apply andb_prop in H. destruct H as [Hv Hq].
  apply negb_true_iff in Hb, Hq. auto.
Qed.

Lemma readQuotedString_loop_plain (q : rune) (s : gostring) :
  forall fuel str rest,
    forallb (quotable_rune q) s = true -> (List.length s < fuel)%nat ->
    readQuotedString_loop IsDigit fuel q str (s ++ q :: rest)
    = (Ok (str ++ s), rest)
    /\ readQuotedString_loop IsDigit fuel q str s
       = (Err ErrMissingEndQuote, []).
Proof.
  induction s as [|a s IH]; intros fuel str rest Hs Hf;
    (destruct fuel as [|fuel]; [simpl in Hf; lia|]).
  - simpl. rewrite Z.eqb_refl, app_nil_r. split; reflexivity.
  - simpl in Hs. apply andb_prop in Hs. destruct Hs as [Ha Hs].
    destruct (quotable_rune_spec q a Ha) as [Hv [Hq Hb]].
    cbn [app readQuotedString_loop]. rewrite Hq, Hb.
    destruct (IH fuel (WriteRune str a) rest Hs) as [H1 H2];
      [simpl in Hf; lia|].
    rewrite H1, H2. unfold WriteRune. rewrite Hv, <- app_assoc.
    split; reflexivity.
Qed.

(** X5. Between two equal quotes, a text with no such quote and no
    backslash is read as one literal with that text and [Bare] false, and
    reading goes on after the closing quote; without the closing quote
    the result is the missing-string-terminator error. *)
Theorem quoted_string_read (q : rune) (s : gostring) (rest : buffer)
  (fuel : nat) :
  q = dquote \/ q = rn "'" ->
  forallb (quotable_rune q) s = true -> (List.length s < fuel)%nat ->
  readNextToken IsSpace IsDigit (S fuel) (q :: s ++ q :: rest)
  = (Ok (mkToken None s false), rest)
  /\ readNextToken IsSpace IsDigit (S fuel) (q :: s)
     = (Err ErrMissingEndQuote, []).
Proof.
  intros Hq Hs Hf.
  destruct (readQuotedString_loop_plain q s fuel [] rest Hs Hf) as [H1 H2].
  rewrite !readNextToken_S. unfold readQuotedString.
  destruct Hq as [-> | ->].
  - rewrite Z.eqb_refl, H1, H2. split; reflexivity.
  - change (rn "'" =? dquote) with false. cbv iota.
    rewrite Z.eqb_refl, H1, H2. split; reflexivity.
Qed.

Lemma join_words_head (w : gostring) (ws : list gostring) :
  plain_word IsSpace w = true ->
  exists r b, join_words (w :: ws) = r :: b /\ IsSpace r = false.
Proof.
  intros Hw. destruct (plain_word_spec w Hw) as [_ [r [w' [-> H]]]].
  destruct H as [_ [_ [_ [_ Hsp]]]].
  destruct ws as [|w2 ws]; simpl; eauto.
Qed.

Lemma length_join_words (w : gostring) (ws : list gostring) :
  (List.length w <= List.length (join_words (w :: ws)))%nat.
Proof.
  destruct ws as [|w2 ws]; cbn [join_words]; [lia|].
  rewrite length_app. lia.
Qed.

Lemma parseLine_loop_words (ws : list gostring) :
  forall fuel tokens,
    IsSpace (rn " ") = true ->
    forallb (plain_word IsSpace) ws = true ->
    (List.length (join_words ws) + 3 <= fuel)%nat ->
    parseLine_loop IsSpace IsDigit fuel tokens (join_words ws)
    = Ok (tokens ++ map bare_token ws).
Proof.
  induction ws as [|w ws IH]; intros fuel tokens Hsp Hws Hf;
    (destruct fuel as [|fuel]; [lia|]).
  - simpl. rewrite app_nil_r. reflexivity.
  - simpl in Hws. apply andb_prop in Hws. destruct Hws as [Hw Hws].
    destruct (plain_word_spec w Hw) as [_ [r [w' [Ew _]]]].
    pose proof (length_join_words w ws) as Hlen.
    destruct fuel as [|fuel]; [lia|].
    destruct ws as [|w2 ws].
    + cbn [join_words] in *. subst w. cbn [parseLine_loop].
      rewrite <- (app_nil_r (r :: w')) at 1.
      rewrite readNextToken_plain_word; [|exact Hw|exact I|lia].
      cbn [readSpace]. destruct fuel as [|fuel]; [simpl in Hf; lia|].
      reflexivity.
    + assert (Hb : join_words (w :: w2 :: ws)
                   = w ++ rn " " :: join_words (w2 :: ws)) by reflexivity.
      rewrite Hb in *. rewrite length_app in Hf. cbn [List.length] in Hf.
      assert (E : parseLine_loop IsSpace IsDigit (S (S fuel)) tokens
                    (w ++ rn " " :: join_words (w2 :: ws))
                  = match readNextToken IsSpace IsDigit (S fuel)
                            (w ++ rn " " :: join_words (w2 :: ws)) with
                    | (Ok token, b') =>
                        match readSpace IsSpace b' with
                        | (Ok true, b'') =>
                            parseLine_loop IsSpace IsDigit (S fuel)
                              (tokens ++ [token]) b''
                        | (Ok false, _) => Err ErrMissingWhitespace
                        | (o, _) => fail_as (list Token) o
                        end
                    | (o, _) => fail_as (list Token) o
                    end).
      { subst w. reflexivity. }
      rewrite E.
      rewrite readNextToken_plain_word;
        [|exact Hw|simpl; rewrite Hsp; reflexivity|lia].
      simpl in Hws. apply andb_prop in Hws. destruct Hws as [Hw2 Hws].
      destruct (join_words_head w2 ws Hw2) as [r2 [b2 [E2 Hr2]]].
      assert (Es : readSpace IsSpace (rn " " :: join_words (w2 :: ws))
                   = (Ok true, join_words (w2 :: ws))).
      { unfold readSpace. cbn [readSpace_loop]. rewrite Hsp, E2.
        cbn [readSpace_loop]. rewrite Hr2. reflexivity. }
      rewrite Es.
      rewrite (IH (S fuel) (tokens ++ [bare_token w]) Hsp).
      * rewrite <- app_assoc. reflexivity.
      * simpl. rewrite Hw2, Hws. reflexivity.
      * lia.
Qed.

(** X6. A line of plain words joined by single blanks is lexed into the
    bare literals of those words, in order, and then handed to
    [processCurlyBraces]. *)
Theorem parseLine_words (ws : list gostring) (num : Z) :
  IsSpace (rn " ") = true ->
  forallb (plain_word IsSpace) ws = true ->
  parseLine IsSpace IsDigit (join_words ws) num
  = processCurlyBraces
      (mkSyntaxLine false false (map (fun w => mkToken None w true) ws) num).
Proof.
  intros Hsp Hws. unfold parseLine, fuel_for.
  rewrite (parseLine_loop_words ws _ [] Hsp Hws); [reflexivity | lia].
Qed.

(** X1. On a line that is not empty, [parseLine] returns a syntax line or
    an error: the panic of [processCurlyBraces] for a line without tokens
    cannot be reached from it, and the loops of the lexer come to an end.
    The empty line, which the caller filters out, does reach the panic. *)
Theorem parseLine_never_panics (text : gostring) (num : Z) :
  text <> [] ->
  is_result (parseLine IsSpace IsDigit text num) = true
  /\ parseLine IsSpace IsDigit [] num
     = Panic "there should always be tokens here".
Proof.
  intros Hne. split; [|reflexivity].
  exact (parseLine_terminates IsSpace IsDigit text num Hne).
Qed.

Lemma skipped_line_cons (line : gostring) (num : Z)
  (rd : list (gostring * Z)) (e : error) :
  skipped_line (line, num) = true ->
  ReadSyntaxLine IsSpace IsDigit e ((line, num) :: rd)
  = ReadSyntaxLine IsSpace IsDigit e rd.
Proof.
  unfold skipped_line. simpl. destruct line as [|c line]; [reflexivity|].
  intros ->. reflexivity.
Qed.

(** X2. [ReadSyntaxLine] passes over every line that is empty or starts
    with the number sign and parses the first other line, with its line
    number, leaving the lines after it in the reader; when only such
    lines are left it returns the reader's error. *)
Theorem ReadSyntaxLine_skips (e : error) (skipped rd : list (gostring * Z))
  (line : gostring) (num : Z) :
  forallb skipped_line skipped = true ->
  skipped_line (line, num) = false ->
  ReadSyntaxLine IsSpace IsDigit e (skipped ++ (line, num) :: rd)
  = (parseLine IsSpace IsDigit line num, rd)
  /\ ReadSyntaxLine IsSpace IsDigit e skipped = (Err e, []).
Proof.
  intros Hsk Hline. induction skipped as [|[l n] skipped IH].
  - split; [|reflexivity]. simpl. unfold skipped_line in Hline.
    simpl in Hline. destruct line as [|c line]; [discriminate|].
    rewrite Hline. reflexivity.
  - simpl in Hsk. apply andb_prop in Hsk. destruct Hsk as [Hl Hsk].
    cbn [app]. rewrite !skipped_line_cons by exact Hl. exact (IH Hsk).
Qed.

(** X3. Whatever the reader holds, [ReadSyntaxLine] returns a syntax line
    or an error: the empty lines are filtered out before [parseLine], so
    the panic of [processCurlyBraces] is never reached. *)
Theorem ReadSyntaxLine_never_panics (e : error) (rd : list (gostring * Z)) :
  is_result (fst (ReadSyntaxLine IsSpace IsDigit e rd)) = true.
Proof.
  induction rd as [|[line num] rd IH]; [reflexivity|].
  cbn [ReadSyntaxLine]. destruct line as [|c line]; [exact IH|].
  destruct (c =? rn "#"); [exact IH|].
  cbn [fst]. apply parseLine_terminates. discriminate.
Qed.

End Reading.

Lemma parseLine_never_panics_witness :
  is_result (lexLine (runes "a (b c)")) = true
  /\ lexLine [] = Panic "there should always be tokens here".
Proof.
  exact (parseLine_never_panics Unicode.IsSpace Unicode.IsDigit
           (runes "a (b c)") 1 ltac:(discriminate)).
Defined.

Lemma ReadSyntaxLine_skips_witness :
  ReadSyntaxLine Unicode.IsSpace Unicode.IsDigit io_EOF
    ([([], 1); (runes "# note", 2)] ++ (runes "x y", 3) :: [(runes "z", 4)])
  = (parseLine Unicode.IsSpace Unicode.IsDigit (runes "x y") 3,
     [(runes "z", 4)])
  /\ ReadSyntaxLine Unicode.IsSpace Unicode.IsDigit io_EOF
       [([], 1); (runes "# note", 2)]
     = (Err io_EOF, []).
Proof.
  exact (ReadSyntaxLine_skips Unicode.IsSpace Unicode.IsDigit io_EOF
           [([], 1); (runes "# note", 2)] [(runes "z", 4)] (runes "x y") 3
           eq_refl eq_refl).
Defined.

Lemma bare_word_read_witness :
  readNextToken Unicode.IsSpace Unicode.IsDigit 5 (runes "add" ++ runes " 1")
  = (Ok (mkToken None (runes "add") true), runes " 1").
Proof.
  exact (bare_word_read Unicode.IsSpace Unicode.IsDigit (runes "add")
           (runes " 1") 4 eq_refl eq_refl ltac:(simpl; lia)).
Defined.

Lemma quoted_string_read_witness :
  readNextToken Unicode.IsSpace Unicode.IsDigit 5
    (dquote :: runes "a b" ++ dquote :: runes " c")
  = (Ok (mkToken None (runes "a b") false), runes " c")
  /\ readNextToken Unicode.IsSpace Unicode.IsDigit 5 (dquote :: runes "a b")
     = (Err ErrMissingEndQuote, []).
Proof.
  exact (quoted_string_read Unicode.IsSpace Unicode.IsDigit dquote
           (runes "a b") (runes " c") 4 (or_introl eq_refl) eq_refl
           ltac:(simpl; lia)).
Defined.

Lemma parseLine_words_witness :
  parseLine Unicode.IsSpace Unicode.IsDigit
    (join_words [runes "if"; runes "a"; runes "{"]) 7
  = processCurlyBraces
      (mkSyntaxLine false false
         (map (fun w => mkToken None w true)
            [runes "if"; runes "a"; runes "{"]) 7)
  /\ processCurlyBraces
       (mkSyntaxLine false false
          (map (fun w => mkToken None w true)
             [runes "if"; runes "a"; runes "{"]) 7)
     = Ok (mkSyntaxLine true false [lit "if"; lit "a"] 7).
Proof.
  split; [|reflexivity].
  exact (parseLine_words Unicode.IsSpace Unicode.IsDigit
           [runes "if"; runes "a"; runes "{"] 7 eq_refl eq_refl).
Defined.

(** ** syntax.go: the values of the escapes *)

Lemma digit_value_nonneg (c d : rune) : digit_value c = Some d -> 0 <= d.
Proof.
  unfold digit_value. change (rn "0") with 48. change (rn "9") with 57.
  change (rn "a") with 97. change (rn "z") with 122.
  destruct ((48 <=? c) && (c <=? 57)) eqn:E1.
  - intros [= <-]. apply andb_prop in E1. destruct E1 as [H _].
    apply Z.leb_le in H. lia.
  - destruct ((97 <=? lower c) && (lower c <=? 122)) eqn:E2;
      [|discriminate].
    intros [= <-]. apply andb_prop in E2. destruct E2 as [H _].
    apply Z.leb_le in H. lia.
Qed.

Lemma ParseUint_loop_bound (s0 s : gostring) (base maxVal : Z) :
  0 < base ->
  forall n v, 0 <= n <= maxVal ->
    ParseUint_loop s0 s base maxVal n = Ok v -> 0 <= v <= maxVal.
Proof.
  intros Hb. induction s as [|c s IH]; intros n v Hn H; simpl in H.
  - inversion H; subst. exact Hn.
  - destruct (digit_value c) as [d|] eqn:Ed; [|discriminate].
    apply digit_value_nonneg in Ed.
    destruct (base <=? d); [discriminate|].
    destruct (maxUint64 / base + 1 <=? n); [discriminate|].
    destruct ((maxUint64 <? n * base + d) || (maxVal <? n * base + d))
      eqn:E; [discriminate|].
    apply orb_false_elim in E. destruct E as [_ E].
    apply Z.ltb_ge in E.
    apply (IH (n * base + d) v); [split; [nia | exact E] | exact H].
Qed.

Lemma ParseUint_bound (s : gostring) (base bitSize v : Z) :
  0 < base -> 0 <= bitSize ->
  ParseUint s base bitSize = Ok v -> 0 <= v <= 2 ^ bitSize - 1.
Proof.
  intros Hb Hbits H. unfold ParseUint in H.
  destruct s as [|c s]; [discriminate|].
  apply (ParseUint_loop_bound (c :: s) (c :: s) base _ Hb 0 v); [|exact H].
  pose proof (Z.pow_pos_nonneg 2 bitSize ltac:(lia) Hbits). lia.
Qed.

Lemma rune_of_uint64_small (v : Z) :
  0 <= v < 2147483648 -> rune_of_uint64 v = v.
Proof.
  intros Hv. unfold rune_of_uint64. rewrite Z.mod_small by lia.
  destruct (Z.ltb_spec v 2147483648); [reflexivity | lia].
Qed.

Lemma readNumericEscape_loop_reads (n : nat) :
  forall rs b rs' b',
    readNumericEscape_loop n rs b = (Ok rs', b') ->
    exists ds, rs' = rs ++ ds /\ b = ds ++ b' /\ List.length ds = n.
Proof.
  induction n as [|n IH]; intros rs b rs' b' H; simpl in H.
  - inversion H; subst. exists []. rewrite app_nil_r. auto.
  - destruct b as [|r b]; [discriminate|].
    apply IH in H. destruct H as [ds [-> [-> Hl]]].
    exists (r :: ds). rewrite <- app_assoc. simpl. auto.
Qed.

Lemma readNumericEscape_value (n : nat) (b b' : buffer) (r : rune) :
  (n <= 7)%nat ->
  readNumericEscape n b = (Ok r, b') ->
  0 <= r <= 2 ^ (Z.of_nat n * 4) - 1
  /\ exists ds, b = ds ++ b' /\ List.length ds = n.
Proof.
  intros Hn H. unfold readNumericEscape in H.
  destruct (readNumericEscape_loop n [] b) as [[rs|e|m|] b0] eqn:El;
    try discriminate.
  destruct (ParseUint rs 16 (Z.of_nat n * 4)) as [v|e|m|] eqn:Ep;
    try discriminate.
  inversion H; subst.
  apply ParseUint_bound in Ep; [|lia|lia].
  apply readNumericEscape_loop_reads in El.
  destruct El as [ds [_ [Hb Hl]]].
  assert (Hpow : 2 ^ (Z.of_nat n * 4) <= 2 ^ 28)
    by (apply Z.pow_le_mono_r; lia).
  change (2 ^ 28) with 268435456 in Hpow.
  rewrite rune_of_uint64_small by lia.
  split; [exact Ep|]. exists ds. auto.
Qed.

Lemma readOctalEscape_value (b b' : buffer) (r : rune) :
  readOctalEscape b = (Ok r, b') -> 0 <= r <= 255.
Proof.
  unfold readOctalEscape.
  destruct (readOctalEscape_loop 3 [] b) as [rs b0].
  destruct rs as [|d rs]; [discriminate|].
  destruct (ParseUint (d :: rs) 8 8) as [v|e|m|] eqn:Ep; try discriminate.
  intros H. inversion H; subst.
  apply ParseUint_bound in Ep; [|lia|lia]. change (2 ^ 8 - 1) with 255 in Ep.
  rewrite rune_of_uint64_small by lia. exact Ep.
Qed.

(** X7. An escape that decodes has a bounded value: after x it is a byte
    (0 to 255) made of exactly the next two characters, after u it is at
    most 65535 and made of the next four, and an octal escape is a byte
    as well, so that an octal escape above 377 is refused. *)
Theorem escape_value_ranges (IsDigit : rune -> bool) (c : rune)
  (b b' : buffer) (r : rune) :
  readEscapeSequence IsDigit (c :: b) = (Ok r, b') ->
  (c = rn "x" ->
     0 <= r <= 255 /\ exists ds, b = ds ++ b' /\ List.length ds = 2%nat)
  /\ (c = rn "u" ->
        0 <= r <= 65535
        /\ exists ds, b = ds ++ b' /\ List.length ds = 4%nat)
  /\ (is_octal c = true -> 0 <= r <= 255).
Proof.
  intros H. split; [|split].
  - intros ->. change (readEscapeSequence IsDigit (rn "x" :: b))
      with (readNumericEscape 2 b) in H.
    apply readNumericEscape_value in H; [exact H | lia].
  - intros ->. change (readEscapeSequence IsDigit (rn "u" :: b))
      with (readNumericEscape 4 b) in H.
    apply readNumericEscape_value in H; [exact H | lia].
  - intros Ho. rewrite escape_default in H.
    + destruct (negb (IsDigit c) || (c =? rn "8") || (c =? rn "9"));
        [discriminate|].
      exact (readOctalEscape_value _ _ _ H).
    + unfold is_octal in Ho. apply andb_prop in Ho. destruct Ho as [H0 H8].
      apply Z.leb_le in H0. apply Z.ltb_lt in H8.
      change (rn "0") with 48 in H0. change (rn "8") with 56 in H8.
      intros Hin. cbv in Hin. lia.
Qed.

Lemma escape_value_ranges_witness :
  (rn "x" = rn "x" ->
     0 <= rn "A" <= 255
     /\ exists ds, runes "41z" = ds ++ runes "z" /\ List.length ds = 2%nat)
  /\ (rn "x" = rn "u" ->
        0 <= rn "A" <= 65535
        /\ exists ds, runes "41z" = ds ++ runes "z"
                      /\ List.length ds = 4%nat)
  /\ (is_octal (rn "x") = true -> 0 <= rn "A" <= 255).
Proof.
  exact (escape_value_ranges Unicode.IsDigit (rn "x") (runes "41z")
           (runes "z") (rn "A") eq_refl).
Defined.

(** ** syntax.go: what the brace step removes *)

(** X8. When [processCurlyBraces] succeeds on a freshly lexed line, the
    tokens it returns are the tokens of the line without at most one
    token at the front and one at the end: the front one is a bare
    closing brace and is removed exactly when [BlockClose] is set, the
    end one has the text of an opening brace and is removed exactly when
    [BlockOpen] is set. The line number is kept. *)
Theorem braces_only_stripped (toks : list Token) (num : Z) (l' : SyntaxLine) :
  processCurlyBraces (mkSyntaxLine false false toks num) = Ok l' ->
  exists pre post,
    toks = pre ++ Tokens l' ++ post
    /\ (pre = [] /\ BlockClose l' = false
        \/ exists t, pre = [t] /\ Text t = runes "}" /\ Bare t = true
                     /\ BlockClose l' = true)
    /\ (post = [] /\ BlockOpen l' = false
        \/ exists t, post = [t] /\ Text t = runes "{"
                     /\ BlockOpen l' = true)
    /\ Number_ l' = num.
Proof.
  intros H. unfold processCurlyBraces in H. cbn [Tokens] in H.
  destruct toks as [|t0 rest]; [discriminate|].
  assert (Hopen : forall (l1 : SyntaxLine),
    BlockOpen l1 = false ->
    (if isOpenKeyword (Tokens l1) then
       if negb (gostring_eqb (Text (last (Tokens l1) t0)) (runes "{"))
       then Err ErrMissingOpenCurlyBrace
       else Ok (mkSyntaxLine true (BlockClose l1)
                  (removelast (Tokens l1)) (Number_ l1))
     else Ok l1) = Ok l' ->
    exists post,
      Tokens l1 = Tokens l' ++ post
      /\ (post = [] /\ BlockOpen l' = false
          \/ exists t, post = [t] /\ Text t = runes "{"
                       /\ BlockOpen l' = true)
      /\ BlockClose l' = BlockClose l1 /\ Number_ l' = Number_ l1).
  { intros l1 Hno H1.
    destruct (isOpenKeyword (Tokens l1)) eqn:Ek.
    - destruct (gostring_eqb (Text (last (Tokens l1) t0)) (runes "{"))
        eqn:Eb; simpl in H1; [|discriminate].
      inversion H1; subst l'. cbn.
      apply gostring_eqb_eq in Eb.
      exists [last (Tokens l1) t0]. split.
      + apply app_removelast_last. exact (isOpenKeyword_nonempty _ Ek).
      + split; [|split; reflexivity].
        right. exists (last (Tokens l1) t0). auto.
    - inversion H1; subst l'. exists []. rewrite app_nil_r.
      split; [reflexivity|]. split; [left; auto | split; reflexivity]. }
  destruct (gostring_eqb (Text t0) (runes "}") && Bare t0) eqn:Ec.
  - apply andb_prop in Ec. destruct Ec as [Et Eb].
    apply gostring_eqb_eq in Et.
    destruct (Hopen (mkSyntaxLine false true rest num) eq_refl H)
      as [post [Htoks [Hpost [Hclose Hnum]]]].
    cbn in Htoks, Hclose, Hnum.
    exists [t0], post. split; [cbn; rewrite Htoks; reflexivity|].
    split; [right; exists t0; auto|]. split; [exact Hpost | exact Hnum].
  - destruct (Hopen (mkSyntaxLine false false (t0 :: rest) num) eq_refl H)
      as [post [Htoks [Hpost [Hclose Hnum]]]].
    cbn in Htoks, Hclose, Hnum.
    exists [], post. split; [exact Htoks|].
    split; [left; auto|]. split; [exact Hpost | exact Hnum].
Qed.

Lemma braces_only_stripped_witness :
  exists pre post,
    [lit "}"; lit "else"; lit "{"]
    = pre ++ Tokens (mkSyntaxLine true true [lit "else"] 3) ++ post
    /\ (pre = [] /\ BlockClose (mkSyntaxLine true true [lit "else"] 3) = false
        \/ exists t, pre = [t] /\ Text t = runes "}" /\ Bare t = true
                     /\ BlockClose (mkSyntaxLine true true [lit "else"] 3)
                        = true)
    /\ (post = [] /\ BlockOpen (mkSyntaxLine true true [lit "else"] 3) = false
        \/ exists t, post = [t] /\ Text t = runes "{"
                     /\ BlockOpen (mkSyntaxLine true true [lit "else"] 3)
                        = true)
    /\ Number_ (mkSyntaxLine true true [lit "else"] 3) = 3.
Proof.
  exact (braces_only_stripped [lit "}"; lit "else"; lit "{"] 3
           (mkSyntaxLine true true [lit "else"] 3) eq_refl).
Defined.

(** ** condition.go: conditions from tokens *)

Section FromTokens.

Variables Runner Breakout : Type.
Variable r : Runner.
Variable Token_Runnable : Token -> string -> Runnable Runner Breakout.
Variable val : Token -> string.
Variable context : string.

(** X16. When every token evaluates to a string, the condition built
    from tokens whose first token has the text not (quoted or bare) is the
    complement of the condition over the other tokens, and that first
    token is no operand; any other token list is the plain condition over
    all its tokens. *)
Theorem ConditionFromTokens_truth (t : list Token) :
  (forall tk, Token_Runnable tk context = operand (val tk)) ->
  exists v,
    ConditionRunnable_Run (ConditionFromTokens Token_Runnable t context) r
    = inl v
    /\ Value_Bool v
       = match t with
         | t0 :: rest =>
             if gostring_eqb (Text t0) (runes "not")
             then negb (Condition_spec (map val rest))
             else Condition_spec (map val t)
         | [] => true
         end.
Proof.
  intros Hval.
  assert (Hmap : forall l, map (fun tk => Token_Runnable tk context) l
                           = map (operand (Breakout := Breakout))
                               (map val l)).
  { intros l. rewrite map_map. apply map_ext. exact Hval. }
  assert (Hpos : forall l,
    exists v, ConditionRunnable_Run
                (AsCondition (map (fun tk => Token_Runnable tk context) l)) r
              = inl v /\ Value_Bool v = Condition_spec (map val l)).
  { intros l. cbn [ConditionRunnable_Run]. rewrite Hmap.
    apply Condition_Run_operands. }
  destruct t as [|t0 rest]; [exact (Hpos [])|].
  cbn [ConditionFromTokens].
  destruct (gostring_eqb (Text t0) (runes "not")); [|exact (Hpos (t0 :: rest))].
  cbn [ConditionRunnable_Run]. rewrite Hmap. unfold NotCondition_Run.
  destruct (Condition_Run_operands Runner Breakout r (map val rest))
    as [v [Hrun Hv]].
  rewrite Hrun. exists (NewValueBool (negb (Value_Bool v))).
  split; [reflexivity|].
  unfold NewValueBool. rewrite Value_Bool_BoolValue, Hv. reflexivity.
Qed.

End FromTokens.

Lemma ConditionFromTokens_truth_witness :
  exists v,
    ConditionRunnable_Run
      (ConditionFromTokens
         (fun tk _ => operand (Runner := unit) (Breakout := unit)
                        (if Bare tk then "a" else "b")%string)
         [mkToken None (runes "not") false; lit "x"; lit "y";
          mkToken None (runes "z") false] "") tt
    = inl v
    /\ Value_Bool v
       = negb (Condition_spec ["a"; "a"; "b"]%string).
Proof.
  exact (ConditionFromTokens_truth unit unit tt
           (fun tk _ => operand (if Bare tk then "a" else "b")%string)
           (fun tk => (if Bare tk then "a" else "b")%string) ""
           [mkToken None (runes "not") false; lit "x"; lit "y";
            mkToken None (runes "z") false]
           (fun tk => eq_refl)).
Defined.

(** ** syntax.go: the loop of a nested group *)

Section GroupLoop.

Variable IsSpace : rune -> bool.
Variable IsDigit : rune -> bool.

Lemma readSpace_loop_run (ws : gostring) (next : buffer) :
  forallb IsSpace ws = true -> stop_next IsSpace next ->
  readSpace_loop IsSpace (ws ++ next) true = (true, next).
Proof.
  intros Hws Hnext. induction ws as [|w ws IH].
  - simpl. destruct next as [|r next]; [reflexivity|].
    simpl in Hnext. simpl. rewrite Hnext. reflexivity.
  - simpl in Hws. apply andb_prop in Hws. destruct Hws as [Hw Hws].
    simpl. rewrite Hw. exact (IH Hws).
Qed.

(** A run of whitespace, at least one rune long, is read away up to the
    next rune that is no whitespace, and [readSpace] answers true. *)
Lemma readSpace_run (ws : gostring) (next : buffer) :
  ws <> [] -> forallb IsSpace ws = true -> stop_next IsSpace next ->
  readSpace IsSpace (ws ++ next) = (Ok true, next).
Proof.
  intros Hne Hws Hnext. destruct ws as [|w ws]; [contradiction|].
  simpl in Hws. apply andb_prop in Hws. destruct Hws as [Hw Hws].
  unfold readSpace. cbn [app readSpace_loop]. rewrite Hw.
  rewrite (readSpace_loop_run ws next Hws Hnext). reflexivity.
Qed.

Lemma readSpace_nothing (b : buffer) :
  stop_next IsSpace b -> snd (readSpace IsSpace b) = b.
Proof.
  intros H. destruct b as [|r b]; [reflexivity|].
  simpl in H. unfold readSpace. simpl. rewrite H. reflexivity.
Qed.

Lemma finish_after_token (tokens : list Token) (tok : Token) (b : buffer) :
  readNestedCommand_finish (tokens ++ [tok]) b = (Ok (tokens ++ [tok]), b).
Proof.
  destruct (tokens ++ [tok]) eqn:E; [|reflexivity].
  destruct tokens; discriminate.
Qed.

(** A closing paren alone ends the loop with the tokens read so far. *)
Lemma loop_lone_paren (fuel : nat) (tokens : list Token) (rest : buffer) :
  readNestedCommand_loop IsSpace IsDigit (S (S fuel)) tokens (rn ")" :: rest)
  = readNestedCommand_finish tokens rest.
Proof. rewrite readNestedCommand_loop_S, readNextToken_S. reflexivity. Qed.

Lemma loop_at_end (fuel : nat) (tokens : list Token) :
  readNestedCommand_loop IsSpace IsDigit (S (S fuel)) tokens []
  = (Err ErrMissingCloseParen, []).
Proof. reflexivity. Qed.

(** A token followed by whitespace: the loop goes on after the
    whitespace with one more token. *)
Lemma loop_token_space (N fuel : nat) (tokens : list Token)
  (txt ws : gostring) (tok : Token) (next : buffer) :
  IsSpace (rn ")") = false ->
  reads_as IsSpace IsDigit N txt tok -> (N <= fuel)%nat ->
  ws <> [] -> forallb IsSpace ws = true -> stop_next IsSpace next ->
  readNestedCommand_loop IsSpace IsDigit (S fuel) tokens (txt ++ ws ++ next)
  = readNestedCommand_loop IsSpace IsDigit fuel (tokens ++ [tok]) next.
Proof.
  intros Hparen Hread Hf Hne Hws Hnext.
  rewrite readNestedCommand_loop_S.
  destruct ws as [|w ws]; [contradiction|].
  assert (Hw : IsSpace w = true).
  { simpl in Hws. apply andb_prop in Hws. exact (proj1 Hws). }
  rewrite (Hread fuel ((w :: ws) ++ next) Hf);
    [|simpl; rewrite Hw; reflexivity].
  cbn [app].
  destruct (Z.eqb_spec w (rn ")")) as [->|_]; [congruence|].
  change (w :: ws ++ next) with ((w :: ws) ++ next).
  rewrite (readSpace_run (w :: ws) next Hne Hws Hnext). reflexivity.
Qed.

(** A token directly followed by the closing paren ends the group. *)
Lemma loop_token_paren (N fuel : nat) (tokens : list Token) (txt : gostring)
  (tok : Token) (rest : buffer) :
  reads_as IsSpace IsDigit N txt tok -> (N <= fuel)%nat ->
  readNestedCommand_loop IsSpace IsDigit (S fuel) tokens
    (txt ++ rn ")" :: rest)
  = (Ok (tokens ++ [tok]), rest).
Proof.
  intros Hread Hf. rewrite readNestedCommand_loop_S.
  rewrite (Hread fuel (rn ")" :: rest) Hf);
    [|unfold at_stop; apply orb_true_iff; right; reflexivity].
  cbv beta iota. rewrite Z.eqb_refl. apply finish_after_token.
Qed.

(** A token at the very end of the input. *)
Lemma loop_token_end (N fuel : nat) (tokens : list Token) (txt : gostring)
  (tok : Token) :
  reads_as IsSpace IsDigit N txt tok -> (N <= fuel)%nat ->
  readNestedCommand_loop IsSpace IsDigit (S fuel) tokens txt
  = readNestedCommand_loop IsSpace IsDigit fuel (tokens ++ [tok]) [].
Proof.
  intros Hread Hf. rewrite readNestedCommand_loop_S.
  pose proof (Hread fuel [] Hf I) as H. rewrite app_nil_r in H.
  rewrite H. reflexivity.
Qed.

Lemma starts_token_stop (txt : gostring) (b : buffer) :
  starts_token IsSpace txt = true -> stop_next IsSpace (txt ++ b).
Proof.
  destruct txt as [|r txt]; [discriminate|]. simpl.
  intros H. apply negb_true_iff in H. exact H.
Qed.

(** The loop over a list of tokens separated by whitespace, up to the
    closing paren, with or without whitespace before it. *)
Lemma loop_items_closed (N : nat) (more : list (gostring * gostring * Token)) :
  forall (txt : gostring) (tok : Token) (tokens : list Token) (fuel : nat)
         (tr : gostring) (rest : buffer),
    IsSpace (rn ")") = false ->
    reads_as IsSpace IsDigit N txt tok ->
    Forall (item_ok IsSpace IsDigit N) more ->
    forallb IsSpace tr = true ->
    (N + List.length more + 3 <= fuel)%nat ->
    readNestedCommand_loop IsSpace IsDigit fuel tokens
      (txt ++ items_text more ++ tr ++ rn ")" :: rest)
    = (Ok (tokens ++ tok :: map snd more), rest).
Proof.
  induction more as [|[[ws txt2] tok2] more IH];
    intros txt tok tokens fuel tr rest Hparen Hread Hmore Htr Hf;
    (destruct fuel as [|fuel]; [lia|]).
  - cbn [items_text flat_map app map]. destruct tr as [|t tr].
    + cbn [app]. apply (loop_token_paren N); [exact Hread | simpl in Hf; lia].
    + rewrite (loop_token_space N fuel tokens txt (t :: tr) tok
                 (rn ")" :: rest) Hparen Hread);
        [|simpl in Hf; lia|discriminate|exact Htr|exact Hparen].
      destruct fuel as [|[|fuel]]; [simpl in Hf; lia|simpl in Hf; lia|].
      rewrite loop_lone_paren. apply finish_after_token.
  - inversion Hmore as [|it more' [Hne [Hws [Hst Hread2]]] Hmore']; subst.
    cbn [fst snd] in Hne, Hws, Hst, Hread2.
    cbn [items_text flat_map fst snd map].
    fold (items_text more).
    replace (txt ++ ((ws ++ txt2) ++ items_text more)
                 ++ tr ++ rn ")" :: rest)
      with (txt ++ ws ++ (txt2 ++ items_text more ++ tr ++ rn ")" :: rest))
      by (rewrite <- !app_assoc; reflexivity).
    rewrite (loop_token_space N fuel tokens txt ws tok _ Hparen Hread);
      [|simpl in Hf; lia|exact Hne|exact Hws
       |apply starts_token_stop; exact Hst].
    rewrite (IH txt2 tok2 (tokens ++ [tok]) fuel tr rest Hparen Hread2
               Hmore' Htr); [|simpl in Hf; lia].
    rewrite <- app_assoc. reflexivity.
Qed.

(** The same tokens with no closing paren after them. *)
Lemma loop_items_open (N : nat) (more : list (gostring * gostring * Token)) :
  forall (txt : gostring) (tok : Token) (tokens : list Token) (fuel : nat)
         (tr : gostring),
    IsSpace (rn ")") = false ->
    reads_as IsSpace IsDigit N txt tok ->
    Forall (item_ok IsSpace IsDigit N) more ->
    forallb IsSpace tr = true ->
    (N + List.length more + 3 <= fuel)%nat ->
    readNestedCommand_loop IsSpace IsDigit fuel tokens
      (txt ++ items_text more ++ tr)
    = (Err ErrMissingCloseParen, []).
Proof.
  induction more as [|[[ws txt2] tok2] more IH];
    intros txt tok tokens fuel tr Hparen Hread Hmore Htr Hf;
    (destruct fuel as [|fuel]; [lia|]).
  - cbn [items_text flat_map app].
    destruct fuel as [|[|fuel]]; [simpl in Hf; lia|simpl in Hf; lia|].
    destruct tr as [|t tr].
    + rewrite app_nil_r.
      rewrite (loop_token_end N (S (S fuel)) tokens txt tok Hread);
        [|simpl in Hf; lia].
      apply loop_at_end.
    + rewrite <- (app_nil_r (t :: tr)).
      rewrite (loop_token_space N _ tokens txt (t :: tr) tok [] Hparen Hread);
        [|simpl in Hf; lia|discriminate|exact Htr|exact I].
      apply loop_at_end.
  - inversion Hmore as [|it more' [Hne [Hws [Hst Hread2]]] Hmore']; subst.
    cbn [fst snd] in Hne, Hws, Hst, Hread2.
    cbn [items_text flat_map fst snd].
    fold (items_text more).
    replace (txt ++ ((ws ++ txt2) ++ items_text more) ++ tr)
      with (txt ++ ws ++ (txt2 ++ items_text more ++ tr))
      by (rewrite <- !app_assoc; reflexivity).
    rewrite (loop_token_space N fuel tokens txt ws tok _ Hparen Hread);
      [|simpl in Hf; lia|exact Hne|exact Hws
       |apply starts_token_stop; exact Hst].
    apply (IH txt2 tok2 (tokens ++ [tok]) fuel tr Hparen Hread2 Hmore' Htr).
    simpl in Hf. lia.
Qed.

Lemma readNestedCommand_body (fuel : nat) (sp : gostring) (b : buffer) :
  forallb IsSpace sp = true -> stop_next IsSpace b ->
  readNestedCommand IsSpace IsDigit fuel (sp ++ b)
  = readNestedCommand_loop IsSpace IsDigit fuel [] b.
Proof.
  intros Hsp Hb. unfold readNestedCommand.
  rewrite (readSpace_skips IsSpace sp b Hsp), (readSpace_nothing b Hb).
  reflexivity.
Qed.

(** What [readNestedCommand] returns on a well-formed group body and on
    one that is cut short. *)
Lemma readNestedCommand_items (N fuel : nat) (sp txt tr : gostring)
  (tok : Token) (more : list (gostring * gostring * Token)) (rest : buffer) :
  IsSpace (rn ")") = false ->
  forallb IsSpace sp = true ->
  starts_token IsSpace txt = true ->
  reads_as IsSpace IsDigit N txt tok ->
  Forall (item_ok IsSpace IsDigit N) more ->
  forallb IsSpace tr = true ->
  (N + List.length more + 3 <= fuel)%nat ->
  readNestedCommand IsSpace IsDigit fuel
    (sp ++ txt ++ items_text more ++ tr ++ rn ")" :: rest)
  = (Ok (tok :: map snd more), rest)
  /\ readNestedCommand IsSpace IsDigit fuel
       (sp ++ txt ++ items_text more ++ tr)
     = (Err ErrMissingCloseParen, []).
Proof.
  intros Hparen Hsp Hst Hread Hmore Htr Hf. split.
  - rewrite readNestedCommand_body;
      [|exact Hsp|apply starts_token_stop; exact Hst].
    exact (loop_items_closed N more txt tok [] fuel tr rest Hparen Hread
             Hmore Htr Hf).
  - rewrite readNestedCommand_body;
      [|exact Hsp|apply starts_token_stop; exact Hst].
    exact (loop_items_open N more txt tok [] fuel tr Hparen Hread Hmore Htr
             Hf).
Qed.

(** Plain words, quoted strings and groups are texts that are read as
    one token, so that the tokens of a group may be any of them. *)
Lemma plain_word_reads_as (N : nat) (w : gostring) :
  plain_word IsSpace w = true -> (List.length w + 2 <= N)%nat ->
  reads_as IsSpace IsDigit N w (bare_token w).
Proof.
  intros Hw HN fuel rest Hf Hrest.
  destruct fuel as [|fuel]; [lia|].
  apply readNextToken_plain_word; [exact Hw | exact Hrest | lia].
Qed.

Lemma quoted_reads_as (N : nat) (q : rune) (s : gostring) :
  q = dquote \/ q = rn "'" ->
  forallb (quotable_rune q) s = true -> (List.length s + 2 <= N)%nat ->
  reads_as IsSpace IsDigit N (q :: s ++ [q]) (mkToken None s false).
Proof.
  intros Hq Hs HN fuel rest Hf _.
  destruct fuel as [|fuel]; [lia|].
  destruct (readQuotedString_loop_plain IsDigit q s fuel [] rest Hs
              ltac:(lia)) as [H1 _].
  cbn [app]. rewrite <- app_assoc. cbn [app].
  rewrite readNextToken_S. unfold readQuotedString.
  destruct Hq as [-> | ->].
  - rewrite Z.eqb_refl, H1. reflexivity.
  - change (rn "'" =? dquote) with false. cbv iota.
    rewrite Z.eqb_refl, H1. reflexivity.
Qed.

Lemma group_reads_as (N : nat) (sp txt tr : gostring) (tok : Token)
  (more : list (gostring * gostring * Token)) :
  IsSpace (rn ")") = false ->
  forallb IsSpace sp = true ->
  starts_token IsSpace txt = true ->
  reads_as IsSpace IsDigit N txt tok ->
  Forall (item_ok IsSpace IsDigit N) more ->
  forallb IsSpace tr = true ->
  reads_as IsSpace IsDigit (N + List.length more + 4)
    (rn "(" :: sp ++ txt ++ items_text more ++ tr ++ [rn ")"])
    (mkToken (Some (tok :: map snd more)) [] false).
Proof.
  intros Hparen Hsp Hst Hread Hmore Htr fuel rest Hf _.
  destruct fuel as [|fuel]; [lia|].
  cbn [app]. rewrite <- !app_assoc. cbn [app].
  rewrite readNextToken_S. change (rn "(" =? dquote) with false.
  change (rn "(" =? rn "'") with false. rewrite Z.eqb_refl. cbv iota.
  destruct (readNestedCommand_items N fuel sp txt tr tok more rest Hparen
              Hsp Hst Hread Hmore Htr ltac:(lia)) as [H _].
  rewrite H. reflexivity.
Qed.

(** C5. After the opening paren, [readNestedCommand] skips leading
    whitespace and then reads tokens separated by whitespace (of any
    positive length) until the closing paren, which may follow the last
    token directly or after whitespace: it returns those tokens, in
    order, and leaves the buffer after the paren; [readNextToken] makes
    them the children of one group token. When the input ends before the
    closing paren, with or without tokens read, the result is the
    missing-close-paren error; a closing paren before any token is the
    empty-parens error. So "(add 1 2)" is one group of the literals add,
    1 and 2, "()" fails with the empty-parens error and "(add 1" with the
    missing-close-paren error. *)
Theorem nested_group (N fuel : nat) (sp txt tr : gostring) (tok : Token)
  (more : list (gostring * gostring * Token)) (rest : buffer) :
  IsSpace (rn ")") = false ->
  forallb IsSpace sp = true ->
  starts_token IsSpace txt = true ->
  reads_as IsSpace IsDigit N txt tok ->
  Forall (item_ok IsSpace IsDigit N) more ->
  forallb IsSpace tr = true ->
  (N + List.length more + 3 <= fuel)%nat ->
  readNestedCommand IsSpace IsDigit fuel
    (sp ++ txt ++ items_text more ++ tr ++ rn ")" :: rest)
  = (Ok (tok :: map snd more), rest)
  /\ readNextToken IsSpace IsDigit (S fuel)
       (rn "(" :: sp ++ txt ++ items_text more ++ tr ++ rn ")" :: rest)
     = (Ok (mkToken (Some (tok :: map snd more)) [] false), rest)
  /\ readNestedCommand IsSpace IsDigit fuel
       (sp ++ txt ++ items_text more ++ tr)
     = (Err ErrMissingCloseParen, [])
  /\ readNestedCommand IsSpace IsDigit fuel (sp ++ rn ")" :: rest)
     = (Err ErrEmptyParens, rest)
  /\ readNestedCommand IsSpace IsDigit fuel sp
     = (Err ErrMissingCloseParen, [])
  /\ lexToken (runes "(add 1 2)")
     = (Ok (mkToken (Some [lit "add"; lit "1"; lit "2"]) [] false), [])
  /\ lexToken (runes "()") = (Err ErrEmptyParens, [])
  /\ lexToken (runes "(add 1") = (Err ErrMissingCloseParen, [])
  /\ lexLine (runes "(add 1 2)")
     = Ok (mkSyntaxLine false false
             [mkToken (Some [lit "add"; lit "1"; lit "2"]) [] false] 1)
  /\ lexLine (runes "()") = Err ErrEmptyParens
  /\ lexLine (runes "(add 1") = Err ErrMissingCloseParen.
Proof.
  intros Hparen Hsp Hst Hread Hmore Htr Hf.
  destruct (readNestedCommand_items N fuel sp txt tr tok more rest Hparen
              Hsp Hst Hread Hmore Htr Hf) as [Hclosed Hopen].
  destruct fuel as [|[|fuel]]; [lia|lia|].
  split; [exact Hclosed|]. split.
  { rewrite readNextToken_S. change (rn "(" =? dquote) with false.
    change (rn "(" =? rn "'") with false. rewrite Z.eqb_refl. cbv iota.
    rewrite Hclosed. reflexivity. }
  split; [exact Hopen|]. split.
  { rewrite readNestedCommand_skips by exact Hsp.
    apply readNestedCommand_empty. exact Hparen. }
  split.
  { rewrite <- (app_nil_r sp) at 1.
    rewrite readNestedCommand_skips by exact Hsp.
    apply readNestedCommand_exhausted. }
  vm_compute. repeat split.
Qed.

End GroupLoop.

(** The group "(  add "1 2"  (b c) )" followed by " x": a literal, a
    quoted string and a group as children, whitespace around them. *)
Lemma nested_group_witness :
  readNestedCommand Unicode.IsSpace Unicode.IsDigit 13
    (runes "  add " ++ dquote :: runes "1 2" ++ dquote
       :: runes "  (b c) ) x")
  = (Ok [lit "add"; mkToken None (runes "1 2") false;
         mkToken (Some [lit "b"; lit "c"]) [] false], runes " x")
  /\ readNextToken Unicode.IsSpace Unicode.IsDigit 14
       (runes "(  add " ++ dquote :: runes "1 2" ++ dquote
          :: runes "  (b c) ) x")
     = (Ok (mkToken
              (Some [lit "add"; mkToken None (runes "1 2") false;
                     mkToken (Some [lit "b"; lit "c"]) [] false])
              [] false), runes " x")
  /\ readNestedCommand Unicode.IsSpace Unicode.IsDigit 13
       (runes "  add " ++ dquote :: runes "1 2" ++ dquote
          :: runes "  (b c) ")
     = (Err ErrMissingCloseParen, []).
Proof.
  assert (Hadd : reads_as Unicode.IsSpace Unicode.IsDigit 8 (runes "add")
                   (lit "add")).
  { apply plain_word_reads_as; [reflexivity | simpl; lia]. }
  assert (Hquoted : reads_as Unicode.IsSpace Unicode.IsDigit 8
                      (dquote :: runes "1 2" ++ [dquote])
                      (mkToken None (runes "1 2") false)).
  { apply quoted_reads_as; [left; reflexivity | reflexivity | simpl; lia]. }
  assert (Hgroup : reads_as Unicode.IsSpace Unicode.IsDigit 8 (runes "(b c)")
                     (mkToken (Some [lit "b"; lit "c"]) [] false)).
  { apply (group_reads_as Unicode.IsSpace Unicode.IsDigit 3 [] (runes "b") []
             (lit "b") [(runes " ", runes "c", lit "c")]);
      try reflexivity.
    - apply plain_word_reads_as; [reflexivity | simpl; lia].
    - constructor; [|constructor].
      repeat split; try discriminate.
      apply plain_word_reads_as; [reflexivity | simpl; lia]. }
  assert (Hmore : Forall (item_ok Unicode.IsSpace Unicode.IsDigit 8)
                    [(runes " ", dquote :: runes "1 2" ++ [dquote],
                      mkToken None (runes "1 2") false);
                     (runes "  ", runes "(b c)",
                      mkToken (Some [lit "b"; lit "c"]) [] false)]).
  { constructor; [|constructor; [|constructor]];
      (repeat split; try discriminate; assumption). }
  pose proof
    (nested_group Unicode.IsSpace Unicode.IsDigit 8 13 (runes "  ")
       (runes "add") (runes " ") (lit "add")
       [(runes " ", dquote :: runes "1 2" ++ [dquote],
         mkToken None (runes "1 2") false);
        (runes "  ", runes "(b c)",
         mkToken (Some [lit "b"; lit "c"]) [] false)]
       (runes " x") eq_refl eq_refl eq_refl Hadd Hmore eq_refl
       ltac:(simpl; lia)) as H.
  split; [exact (proj1 H)|].
  split; [exact (proj1 (proj2 H)) | exact (proj1 (proj2 (proj2 H)))].
Defined.
